(** * k8s-pod-detective: detection, deduplication and explanation of pod failures

    A shallow embedding of [pkg/explainer/explainer.go] and
    [pkg/detector/detector.go].  Go strings are byte strings, so they are
    [string]s here (the emoji of the templates are their UTF-8 bytes);
    [int32] exit codes are integers of [Z] (no arithmetic is done on them);
    the [map[string]bool] of reported keys is a [gmap string bool]; the
    cluster API and the console are an oracle and a trace of events. *)

From stdpp Require Import base strings list gmap pretty.

(** ** Strings *)

(** The escaped characters of the Go string literals of the sources: line
    feed, double quote and backslash. *)
Definition LF : string := String (Ascii.ascii_of_nat 10) EmptyString.
Definition DQ : string := String (Ascii.ascii_of_nat 34) EmptyString.
Definition BS : string := String (Ascii.ascii_of_nat 92) EmptyString.

(** [s] has [sub] as a contiguous substring (Go's [strings.Contains]). *)
Definition Contains (s sub : string) : Prop :=
  ∃ pre post, s = pre +:+ sub +:+ post.

Fixpoint hasPrefix (s p : string) {struct p} : bool :=
  match p, s with
  | EmptyString, _ => true
  | String c p', String d s' => if Ascii.eqb c d then hasPrefix s' p' else false
  | String _ _, EmptyString => false
  end.

Fixpoint containsb (s sub : string) : bool :=
  hasPrefix s sub ||
  match s with
  | EmptyString => false
  | String _ s' => containsb s' sub
  end.

(** ** The Kubernetes API objects the detector reads (k8s.io/api/core/v1) *)
Module corev1.

Record ContainerStateWaiting := {
  Waiting_Reason : string;
  Waiting_Message : string;
}.

Record ContainerStateTerminated := {
  Terminated_ExitCode : Z;
  Terminated_Reason : string;
  Terminated_Message : string;
}.

(** The three members are pointers in Go: [None] is [nil]. *)
Record ContainerState := {
  Waiting : option ContainerStateWaiting;
  Running : option unit;
  Terminated : option ContainerStateTerminated;
}.

Record ContainerStatus := {
  Status_Name : string;
  State : ContainerState;
  LastTerminationState : ContainerState;
}.

(** [pod.Namespace], [pod.Name] and [pod.Status.ContainerStatuses]. *)
Record Pod := {
  Pod_Namespace : string;
  Pod_Name : string;
  ContainerStatuses : list ContainerStatus;
}.

Record PodLogOptions := {
  Container : string;
  TailLines : option Z;
}.

(** metav1.ListOptions *)
Record ListOptions := {
  LabelSelector : string;
  FieldSelector : string;
}.

End corev1.

(** ** pkg/explainer *)
Module explainer.

(** FailureInfo contains details about a pod failure *)
Record FailureInfo := {
  PodName : string;
  Namespace : string;
  ContainerName : string;
  Reason : string;
  Message : string;
  ExitCode : Z;
  LastLog : string;
}.

Definition explainExitCode (code : Z) : string :=
  match code with
  | 0 => "→ Exit code 0: Success (but should not crash)"
  | 1 => "→ Exit code 1: Application error - check your code for bugs"
  | 2 => "→ Exit code 2: Misuse of shell command"
  | 126 => "→ Exit code 126: Command cannot execute (permission problem?)"
  | 127 => "→ Exit code 127: Command not found (binary doesn't exist?)"
  | 130 => "→ Exit code 130: Terminated by Ctrl+C (SIGINT)"
  | 137 => "→ Exit code 137: Killed by SIGKILL (usually OOM or forced termination)"
  | 139 => "→ Exit code 139: Segmentation fault (memory access violation)"
  | 143 => "→ Exit code 143: Terminated by SIGTERM (graceful shutdown)"
  | 255 => "→ Exit code 255: Exit status out of range"
  | _ => "→ Exit code " +:+ pretty code +:+ ": Check application documentation"
  end%Z.

Definition explainCrashLoopBackOff (info : FailureInfo) : string :=
  let explanation := "❌ WHAT HAPPENED:" +:+ LF in
  let explanation := explanation +:+ "Your container keeps crashing and restarting." +:+ LF +:+ LF in
  let explanation := explanation +:+ "🤔 WHAT THIS MEANS:" +:+ LF in
  let explanation := explanation +:+ "The application inside the container starts but then immediately fails." +:+ LF in
  let explanation := explanation +:+ "Kubernetes tried to restart it multiple times but it keeps crashing." +:+ LF +:+ LF in
  (* Analyze exit code *)
  let explanation :=
    if bool_decide (ExitCode info ≠ 0%Z) then
      let explanation := explanation +:+ "Exit Code: " +:+ (pretty (ExitCode info)) +:+ LF in
      let explanation := explanation +:+ (explainExitCode (ExitCode info)) +:+ LF +:+ LF in
      explanation
    else explanation in
  (* Show last error if available *)
  let explanation :=
    if bool_decide (LastLog info ≠ "") then
      let explanation := explanation +:+ "📝 LAST ERROR MESSAGE:" +:+ LF in
      let explanation := explanation +:+ (LastLog info) +:+ LF +:+ LF in
      explanation
    else explanation in
  let explanation := explanation +:+ "🔧 HOW TO FIX:" +:+ LF in
  let explanation := explanation +:+ "1. Check application logs for startup errors" +:+ LF in
  let explanation := explanation +:+ "2. Verify environment variables and configuration" +:+ LF in
  let explanation := explanation +:+ "3. Test the container image locally" +:+ LF in
  let explanation := explanation +:+ "4. Check dependencies (database, APIs, etc.)" +:+ LF +:+ LF in
  let explanation := explanation +:+ "🐛 DEBUG COMMANDS:" +:+ LF in
  let explanation := explanation +:+ "-------------------" +:+ LF +:+ LF in
  let explanation := explanation +:+ "# 1. View recent logs (last 50 lines)" +:+ LF in
  let explanation := explanation +:+ "kubectl logs " +:+ (PodName info) +:+ " -n " +:+ (Namespace info) +:+ " --tail=50" +:+ LF +:+ LF in
  let explanation := explanation +:+ "# 2. View logs from previous crash" +:+ LF in
  let explanation := explanation +:+ "kubectl logs " +:+ (PodName info) +:+ " -n " +:+ (Namespace info) +:+ " --previous" +:+ LF +:+ LF in
  let explanation := explanation +:+ "# 3. View all logs with timestamps" +:+ LF in
  let explanation := explanation +:+ "kubectl logs " +:+ (PodName info) +:+ " -n " +:+ (Namespace info) +:+ " --timestamps=true --all-containers=true" +:+ LF +:+ LF in
  let explanation := explanation +:+ "# 4. Stream logs in real-time" +:+ LF in
  let explanation := explanation +:+ "kubectl logs " +:+ (PodName info) +:+ " -n " +:+ (Namespace info) +:+ " -f" +:+ LF +:+ LF in
  let explanation := explanation +:+ "# 5. Get detailed pod information" +:+ LF in
  let explanation := explanation +:+ "kubectl describe pod " +:+ (PodName info) +:+ " -n " +:+ (Namespace info) +:+ LF +:+ LF in
  let explanation := explanation +:+ "# 6. Check pod events (last activities)" +:+ LF in
  let explanation := explanation +:+ "kubectl get events -n " +:+ (Namespace info) +:+ " --field-selector involvedObject.name=" +:+ (PodName info) +:+ " --sort-by='.lastTimestamp'" +:+ LF +:+ LF in
  let explanation := explanation +:+ "# 7. Get pod YAML configuration" +:+ LF in
  let explanation := explanation +:+ "kubectl get pod " +:+ (PodName info) +:+ " -n " +:+ (Namespace info) +:+ " -o yaml" +:+ LF +:+ LF in
  let explanation := explanation +:+ "# 8. Check environment variables" +:+ LF in
  let explanation := explanation +:+ "kubectl exec " +:+ (PodName info) +:+ " -n " +:+ (Namespace info) +:+ " -- env" +:+ LF +:+ LF in
  let explanation := explanation +:+ "# 9. Try to exec into container (if it stays up long enough)" +:+ LF in
  let explanation := explanation +:+ "kubectl exec -it " +:+ (PodName info) +:+ " -n " +:+ (Namespace info) +:+ " -- /bin/sh" +:+ LF +:+ LF in
  let explanation := explanation +:+ "# 10. Check resource usage" +:+ LF in
  let explanation := explanation +:+ "kubectl top pod " +:+ (PodName info) +:+ " -n " +:+ (Namespace info) +:+ LF +:+ LF in
  let explanation := explanation +:+ "📊 COMMON CAUSES:" +:+ LF in
  let explanation := explanation +:+ "- Missing required environment variables" +:+ LF in
  let explanation := explanation +:+ "- Database connection failures" +:+ LF in
  let explanation := explanation +:+ "- External service unavailable" +:+ LF in
  let explanation := explanation +:+ "- Configuration file errors" +:+ LF in
  let explanation := explanation +:+ "- Application code bugs" +:+ LF in
  let explanation := explanation +:+ "- Port already in use" +:+ LF in
  let explanation := explanation +:+ "- File system permissions" +:+ LF in
  explanation.

Definition explainImagePullError (info : FailureInfo) : string :=
  let explanation := "❌ WHAT HAPPENED:" +:+ LF in
  let explanation := explanation +:+ "Kubernetes cannot download your container image." +:+ LF +:+ LF in
  let explanation := explanation +:+ "🤔 WHAT THIS MEANS:" +:+ LF in
  let explanation := explanation +:+ "The image specified in your deployment doesn't exist, has the wrong name," +:+ LF in
  let explanation := explanation +:+ "or Kubernetes doesn't have permission to pull it from the registry." +:+ LF +:+ LF in
  let explanation := explanation +:+ "🔧 HOW TO FIX:" +:+ LF in
  let explanation := explanation +:+ "1. Verify the image name and tag are correct" +:+ LF in
  let explanation := explanation +:+ "2. Check if the image exists in the registry" +:+ LF in
  let explanation := explanation +:+ "3. Ensure image pull secrets are configured correctly" +:+ LF in
  let explanation := explanation +:+ "4. Verify registry credentials are valid" +:+ LF +:+ LF in
  let explanation := explanation +:+ "🐛 DEBUG COMMANDS:" +:+ LF in
  let explanation := explanation +:+ "-------------------" +:+ LF +:+ LF in
  let explanation := explanation +:+ "# 1. Check pod description for image details" +:+ LF in
  let explanation := explanation +:+ "kubectl describe pod " +:+ (PodName info) +:+ " -n " +:+ (Namespace info) +:+ " | grep -A5 'Image'" +:+ LF +:+ LF in
  let explanation := explanation +:+ "# 2. View detailed error message" +:+ LF in
  let explanation := explanation +:+ "kubectl describe pod " +:+ (PodName info) +:+ " -n " +:+ (Namespace info) +:+ " | grep -A10 'Events'" +:+ LF +:+ LF in
  let explanation := explanation +:+ "# 3. Get pod events" +:+ LF in
  let explanation := explanation +:+ "kubectl get events -n " +:+ (Namespace info) +:+ " --field-selector involvedObject.name=" +:+ (PodName info) +:+ LF +:+ LF in
  let explanation := explanation +:+ "# 4. Check if image pull secret exists" +:+ LF in
  let explanation := explanation +:+ "kubectl get secrets -n " +:+ (Namespace info) +:+ LF +:+ LF in
  let explanation := explanation +:+ "# 5. Describe the image pull secret" +:+ LF in
  let explanation := explanation +:+ "kubectl get secret  -n " +:+ (Namespace info) +:+ " -o yaml" +:+ LF +:+ LF in
  let explanation := explanation +:+ "# 6. Test pulling the image locally (if using Docker)" +:+ LF in
  let explanation := explanation +:+ "# First, get the image name from pod:" +:+ LF in
  let explanation := explanation +:+ "kubectl get pod " +:+ (PodName info) +:+ " -n " +:+ (Namespace info) +:+ " -o jsonpath='{.spec.containers[*].image}'" +:+ LF in
  let explanation := explanation +:+ "# Then try pulling it:" +:+ LF in
  let explanation := explanation +:+ "docker pull " +:+ LF +:+ LF in
  let explanation := explanation +:+ "# 7. Check deployment/pod spec" +:+ LF in
  let explanation := explanation +:+ "kubectl get pod " +:+ (PodName info) +:+ " -n " +:+ (Namespace info) +:+ " -o yaml | grep -A5 'image:'" +:+ LF +:+ LF in
  let explanation := explanation +:+ "# 8. List all image pull secrets in namespace" +:+ LF in
  let explanation := explanation +:+ "kubectl get serviceaccount default -n " +:+ (Namespace info) +:+ " -o yaml | grep -A3 'imagePullSecrets'" +:+ LF +:+ LF in
  let explanation := explanation +:+ "📊 COMMON CAUSES:" +:+ LF in
  let explanation := explanation +:+ "- Typo in image name or tag" +:+ LF in
  let explanation := explanation +:+ "- Image doesn't exist in registry" +:+ LF in
  let explanation := explanation +:+ "- Private registry without credentials" +:+ LF in
  let explanation := explanation +:+ "- Expired or invalid image pull secret" +:+ LF in
  let explanation := explanation +:+ "- Wrong registry URL" +:+ LF in
  let explanation := explanation +:+ "- Tag 'latest' doesn't exist" +:+ LF in
  let explanation := explanation +:+ "- Network issues accessing registry" +:+ LF +:+ LF in
  let explanation := explanation +:+ "💡 CREATE IMAGE PULL SECRET:" +:+ LF in
  let explanation := explanation +:+ "kubectl create secret docker-registry regcred " +:+ BS +:+ LF in
  let explanation := explanation +:+ "  --docker-server= " +:+ BS +:+ LF in
  let explanation := explanation +:+ "  --docker-username= " +:+ BS +:+ LF in
  let explanation := explanation +:+ "  --docker-password= " +:+ BS +:+ LF in
  let explanation := explanation +:+ "  --docker-email= " +:+ BS +:+ LF in
  let explanation := explanation +:+ "  -n " +:+ (Namespace info) +:+ LF in
  explanation.

Definition explainOOMKilled (info : FailureInfo) : string :=
  let explanation := "❌ WHAT HAPPENED:" +:+ LF in
  let explanation := explanation +:+ "Your container ran out of memory (OOM = Out Of Memory)." +:+ LF +:+ LF in
  let explanation := explanation +:+ "🤔 WHAT THIS MEANS:" +:+ LF in
  let explanation := explanation +:+ "The application used more memory than the limit you set." +:+ LF in
  let explanation := explanation +:+ "Kubernetes killed it to prevent affecting other pods on the node." +:+ LF +:+ LF in
  let explanation := explanation +:+ "🔧 HOW TO FIX:" +:+ LF in
  let explanation := explanation +:+ "1. Increase memory limits in your deployment" +:+ LF in
  let explanation := explanation +:+ "2. Fix memory leaks in your application" +:+ LF in
  let explanation := explanation +:+ "3. Optimize memory usage" +:+ LF in
  let explanation := explanation +:+ "4. Use memory profiling tools" +:+ LF +:+ LF in
  let explanation := explanation +:+ "🐛 DEBUG COMMANDS:" +:+ LF in
  let explanation := explanation +:+ "-------------------" +:+ LF +:+ LF in
  let explanation := explanation +:+ "# 1. Check current memory limits" +:+ LF in
  let explanation := explanation +:+ "kubectl get pod " +:+ (PodName info) +:+ " -n " +:+ (Namespace info) +:+ " -o jsonpath='{.spec.containers[*].resources}'" +:+ LF +:+ LF in
  let explanation := explanation +:+ "# 2. View actual memory usage (if metrics-server is installed)" +:+ LF in
  let explanation := explanation +:+ "kubectl top pod " +:+ (PodName info) +:+ " -n " +:+ (Namespace info) +:+ LF +:+ LF in
  let explanation := explanation +:+ "# 3. Check historical resource usage" +:+ LF in
  let explanation := explanation +:+ "kubectl describe pod " +:+ (PodName info) +:+ " -n " +:+ (Namespace info) +:+ " | grep -A5 'Limits" +:+ BS +:+ "|Requests'" +:+ LF +:+ LF in
  let explanation := explanation +:+ "# 4. View OOM events" +:+ LF in
  let explanation := explanation +:+ "kubectl get events -n " +:+ (Namespace info) +:+ " --field-selector reason=OOMKilling" +:+ LF +:+ LF in
  let explanation := explanation +:+ "# 5. Check node memory pressure" +:+ LF in
  let explanation := explanation +:+ "kubectl describe nodes | grep -A5 'Memory'" +:+ LF +:+ LF in
  let explanation := explanation +:+ "# 6. Get pod restart count" +:+ LF in
  let explanation := explanation +:+ "kubectl get pod " +:+ (PodName info) +:+ " -n " +:+ (Namespace info) +:+ " -o jsonpath='{.status.containerStatuses[*].restartCount}'" +:+ LF +:+ LF in
  let explanation := explanation +:+ "# 7. View logs before OOM kill" +:+ LF in
  let explanation := explanation +:+ "kubectl logs " +:+ (PodName info) +:+ " -n " +:+ (Namespace info) +:+ " --previous --tail=100" +:+ LF +:+ LF in
  let explanation := explanation +:+ "📊 HOW TO INCREASE MEMORY:" +:+ LF +:+ LF in
  let explanation := explanation +:+ "Edit your deployment/pod spec:" +:+ LF +:+ LF in
  let explanation := explanation +:+ "resources:" +:+ LF in
  let explanation := explanation +:+ "  requests:" +:+ LF in
  let explanation := explanation +:+ "    memory: " +:+ DQ +:+ "256Mi" +:+ DQ +:+ "  # Minimum guaranteed" +:+ LF in
  let explanation := explanation +:+ "  limits:" +:+ LF in
  let explanation := explanation +:+ "    memory: " +:+ DQ +:+ "512Mi" +:+ DQ +:+ "  # Maximum allowed (INCREASE THIS)" +:+ LF +:+ LF in
  let explanation := explanation +:+ "Then apply changes:" +:+ LF in
  let explanation := explanation +:+ "kubectl edit deployment  -n " +:+ (Namespace info) +:+ LF +:+ LF in
  let explanation := explanation +:+ "📊 COMMON CAUSES:" +:+ LF in
  let explanation := explanation +:+ "- Memory limit set too low" +:+ LF in
  let explanation := explanation +:+ "- Memory leak in application" +:+ LF in
  let explanation := explanation +:+ "- Loading too much data at once" +:+ LF in
  let explanation := explanation +:+ "- Inefficient caching" +:+ LF in
  let explanation := explanation +:+ "- Large file processing" +:+ LF in
  explanation.

Definition explainConfigError (info : FailureInfo) : string :=
  let explanation := "❌ WHAT HAPPENED:" +:+ LF in
  let explanation := explanation +:+ "There's a problem with your container configuration." +:+ LF +:+ LF in
  let explanation := explanation +:+ "🤔 WHAT THIS MEANS:" +:+ LF in
  let explanation := explanation +:+ "Kubernetes found an error in your pod/container configuration" +:+ LF in
  let explanation := explanation +:+ "before it could even start the container." +:+ LF +:+ LF in
  let explanation := explanation +:+ "🔧 HOW TO FIX:" +:+ LF in
  let explanation := explanation +:+ "1. Verify all ConfigMaps and Secrets exist" +:+ LF in
  let explanation := explanation +:+ "2. Check volume mount paths are correct" +:+ LF in
  let explanation := explanation +:+ "3. Ensure environment variables reference valid resources" +:+ LF in
  let explanation := explanation +:+ "4. Validate YAML syntax" +:+ LF +:+ LF in
  let explanation := explanation +:+ "🐛 DEBUG COMMANDS:" +:+ LF in
  let explanation := explanation +:+ "-------------------" +:+ LF +:+ LF in
  let explanation := explanation +:+ "# 1. Get detailed error description" +:+ LF in
  let explanation := explanation +:+ "kubectl describe pod " +:+ (PodName info) +:+ " -n " +:+ (Namespace info) +:+ LF +:+ LF in
  let explanation := explanation +:+ "# 2. Check if referenced ConfigMaps exist" +:+ LF in
  let explanation := explanation +:+ "kubectl get configmaps -n " +:+ (Namespace info) +:+ LF +:+ LF in
  let explanation := explanation +:+ "# 3. Check if referenced Secrets exist" +:+ LF in
  let explanation := explanation +:+ "kubectl get secrets -n " +:+ (Namespace info) +:+ LF +:+ LF in
  let explanation := explanation +:+ "# 4. View pod YAML to find configuration issues" +:+ LF in
  let explanation := explanation +:+ "kubectl get pod " +:+ (PodName info) +:+ " -n " +:+ (Namespace info) +:+ " -o yaml" +:+ LF +:+ LF in
  let explanation := explanation +:+ "# 5. Check volume mounts" +:+ LF in
  let explanation := explanation +:+ "kubectl get pod " +:+ (PodName info) +:+ " -n " +:+ (Namespace info) +:+ " -o jsonpath='{.spec.volumes}'" +:+ LF +:+ LF in
  let explanation := explanation +:+ "📊 COMMON CAUSES:" +:+ LF in
  let explanation := explanation +:+ "- Missing ConfigMap or Secret" +:+ LF in
  let explanation := explanation +:+ "- Wrong ConfigMap/Secret key name" +:+ LF in
  let explanation := explanation +:+ "- Invalid volume mount path" +:+ LF in
  let explanation := explanation +:+ "- Incorrect environment variable reference" +:+ LF in
  explanation.

Definition explainRunContainerError (info : FailureInfo) : string :=
  let explanation := "❌ WHAT HAPPENED:" +:+ LF in
  let explanation := explanation +:+ "Kubernetes couldn't start your container." +:+ LF +:+ LF in
  let explanation := explanation +:+ "🐛 DEBUG COMMANDS:" +:+ LF in
  let explanation := explanation +:+ "-------------------" +:+ LF +:+ LF in
  let explanation := explanation +:+ "kubectl describe pod " +:+ (PodName info) +:+ " -n " +:+ (Namespace info) +:+ LF +:+ LF in
  let explanation := explanation +:+ "kubectl get events -n " +:+ (Namespace info) +:+ " --field-selector involvedObject.name=" +:+ (PodName info) +:+ LF +:+ LF in
  explanation.

Definition explainInvalidImageName (info : FailureInfo) : string :=
  let explanation := "❌ WHAT HAPPENED:" +:+ LF in
  let explanation := explanation +:+ "The container image name is invalid or malformed." +:+ LF +:+ LF in
  let explanation := explanation +:+ "🐛 DEBUG COMMANDS:" +:+ LF in
  let explanation := explanation +:+ "-------------------" +:+ LF +:+ LF in
  let explanation := explanation +:+ "# Check the image name" +:+ LF in
  let explanation := explanation +:+ "kubectl get pod " +:+ (PodName info) +:+ " -n " +:+ (Namespace info) +:+ " -o jsonpath='{.spec.containers[*].image}'" +:+ LF +:+ LF in
  explanation.

Definition explainGeneric (info : FailureInfo) : string :=
  let explanation := "❌ WHAT HAPPENED:" +:+ LF +:+ (Reason info) +:+ LF +:+ LF in
  let explanation :=
    if bool_decide (Message info ≠ "") then
      let explanation := explanation +:+ "📝 ERROR MESSAGE:" +:+ LF +:+ (Message info) +:+ LF +:+ LF in
      explanation
    else explanation in
  let explanation := explanation +:+ "🐛 DEBUG COMMANDS:" +:+ LF in
  let explanation := explanation +:+ "-------------------" +:+ LF +:+ LF in
  let explanation := explanation +:+ "# 1. Get detailed pod information" +:+ LF in
  let explanation := explanation +:+ "kubectl describe pod " +:+ (PodName info) +:+ " -n " +:+ (Namespace info) +:+ LF +:+ LF in
  let explanation := explanation +:+ "# 2. View logs" +:+ LF in
  let explanation := explanation +:+ "kubectl logs " +:+ (PodName info) +:+ " -n " +:+ (Namespace info) +:+ LF +:+ LF in
  let explanation := explanation +:+ "# 3. View previous logs (if restarted)" +:+ LF in
  let explanation := explanation +:+ "kubectl logs " +:+ (PodName info) +:+ " -n " +:+ (Namespace info) +:+ " --previous" +:+ LF +:+ LF in
  let explanation := explanation +:+ "# 4. Check events" +:+ LF in
  let explanation := explanation +:+ "kubectl get events -n " +:+ (Namespace info) +:+ " --field-selector involvedObject.name=" +:+ (PodName info) +:+ " --sort-by='.lastTimestamp'" +:+ LF +:+ LF in
  explanation.

(** The arms of the [switch info.Reason] of [Explain]. *)
Inductive narrative :=
  | CrashLoop | ImagePull | OOM | ConfigError | RunContainer | InvalidImage | Generic.

(** Which arm the [switch] takes: string comparison, first match. *)
Definition selectNarrative (reason : string) : narrative :=
  if String.eqb reason "CrashLoopBackOff" then CrashLoop
  else if String.eqb reason "ImagePullBackOff" || String.eqb reason "ErrImagePull" then ImagePull
  else if String.eqb reason "OOMKilled" then OOM
  else if String.eqb reason "CreateContainerConfigError" then ConfigError
  else if String.eqb reason "RunContainerError" then RunContainer
  else if String.eqb reason "InvalidImageName" then InvalidImage
  else Generic.

(** What each arm writes. *)
Definition renderNarrative (n : narrative) (info : FailureInfo) : string :=
  match n with
  | CrashLoop => explainCrashLoopBackOff info
  | ImagePull => explainImagePullError info
  | OOM => explainOOMKilled info
  | ConfigError => explainConfigError info
  | RunContainer => explainRunContainerError info
  | InvalidImage => explainInvalidImageName info
  | Generic => explainGeneric info
  end.

(** Explain generates a human-friendly explanation with debug commands *)
Definition Explain (info : FailureInfo) : string :=
  let explanation := "" in
  let explanation := explanation +:+ "🚨 PROBLEM DETECTED" +:+ LF in
  let explanation := explanation +:+ "=====================================" +:+ LF in
  let explanation := explanation +:+ "Pod: " +:+ Namespace info +:+ "/" +:+ PodName info +:+ LF in
  let explanation := explanation +:+ "Container: " +:+ ContainerName info +:+ LF +:+ LF in
  (* Analyze based on reason *)
  let explanation := explanation +:+ renderNarrative (selectNarrative (Reason info)) info in
  explanation.

End explainer.

(** ** pkg/detector *)
Module detector.
Import corev1.

(** A Go [error], kept as its message. *)
Definition error := string.

(** What the process does to the outside world, in order: writes to the
    console, calls of the cluster API with their results, calls of
    [explainer.Explain] (tagged with the [statusKey] of the branch that makes
    the call) and sleeps. *)
Inductive event :=
  | Stdout (s : string)
  | PodsList (namespace : string) (opts : ListOptions) (r : error + list Pod)
  | PodsGetLogs (namespace podName : string) (opts : PodLogOptions) (r : error + string)
  | ExplainCall (statusKey : string) (info : explainer.FailureInfo)
  | Sleep (seconds : Z).

(** The two calls made on [*kubernetes.Clientset].  The cluster is outside
    the program: its answer may depend on everything that happened so far. *)
Record Clientset := {
  List : list event → string → ListOptions → error + list Pod;
  GetLogs : list event → string → string → PodLogOptions → error + string;
}.

Record Options := {
  Opt_PodName : string;
  Opt_LabelSelector : string;
}.

Record PodDetector := {
  clientset : Clientset;
  seen : gmap string bool;
  options : Options;
}.

Definition New (clientset : Clientset) (opts : Options) : PodDetector :=
  {| clientset := clientset; seen := ∅; options := opts |}.

(** [d.seen[key]]: a key that is not in a Go map reads as [false]. *)
Definition seenAt (d : PodDetector) (key : string) : bool :=
  default false (seen d !! key).

(** [d.seen[key] = true] *)
Definition markSeen (d : PodDetector) (key : string) : PodDetector :=
  {| clientset := clientset d; seen := <[key := true]> (seen d); options := options d |}.

Definition failureReasons : list string := [
  "CrashLoopBackOff";
  "ImagePullBackOff";
  "ErrImagePull";
  "CreateContainerConfigError";
  "InvalidImageName";
  "RunContainerError"
].

Definition isFailureReason (reason : string) : bool :=
  (fix loop (frs : list string) : bool :=
     match frs with
     | [] => false
     | fr :: frs' => if String.eqb reason fr then true else loop frs'
     end) failureReasons.

Definition getLastLog (d : PodDetector) (namespace podName containerName : string)
    (tr : list event) : string * list event :=
  let tailLines := 10%Z in
  let logOptions := {| Container := containerName; TailLines := Some tailLines |} in
  let r := GetLogs (clientset d) tr namespace podName logOptions in
  let tr := tr ++ [PodsGetLogs namespace podName logOptions r] in
  match r with
  | inl _ => ("", tr)
  | inr logs => (logs, tr)
  end.

Definition gatherFailureInfo (d : PodDetector) (pod : Pod) (status : ContainerStatus)
    (waiting : ContainerStateWaiting) (tr : list event) : explainer.FailureInfo * list event :=
  (* Get last logs if available *)
  let '(lastLog, tr) := getLastLog d (Pod_Namespace pod) (Pod_Name pod) (Status_Name status) tr in
  ({| explainer.PodName := Pod_Name pod;
      explainer.Namespace := Pod_Namespace pod;
      explainer.ContainerName := Status_Name status;
      explainer.Reason := Waiting_Reason waiting;
      explainer.Message := Waiting_Message waiting;
      explainer.ExitCode := 0;
      explainer.LastLog := lastLog |}, tr).

Definition gatherTerminationInfo (d : PodDetector) (pod : Pod) (status : ContainerStatus)
    (terminated : ContainerStateTerminated) (tr : list event) : explainer.FailureInfo * list event :=
  let reason := Terminated_Reason terminated in
  let reason := if String.eqb reason "" then "CrashLoopBackOff" else reason in
  let '(lastLog, tr) := getLastLog d (Pod_Namespace pod) (Pod_Name pod) (Status_Name status) tr in
  ({| explainer.PodName := Pod_Name pod;
      explainer.Namespace := Pod_Namespace pod;
      explainer.ContainerName := Status_Name status;
      explainer.Reason := reason;
      explainer.Message := Terminated_Message terminated;
      explainer.ExitCode := Terminated_ExitCode terminated;
      explainer.LastLog := lastLog |}, tr).

(** The three [fmt.Sprintf] of [checkPod]. *)
Definition podKeyOf (pod : Pod) : string :=
  Pod_Namespace pod +:+ "/" +:+ Pod_Name pod.

Definition waitingStatusKey (podKey name reason : string) : string :=
  podKey +:+ "-" +:+ name +:+ "-" +:+ reason.

Definition terminatedStatusKey (podKey name : string) (exitCode : Z) : string :=
  podKey +:+ "-" +:+ name +:+ "-terminated-" +:+ pretty exitCode.

Definition separator : string :=
  "=====================================" +:+ LF.

(** One iteration of the loop of [checkPod] over the container statuses.
    [fmt.Println] writes its argument and a line feed. *)
Definition checkContainer (pod : Pod) (podKey : string) (containerStatus : ContainerStatus)
    (s : PodDetector * list event) : PodDetector * list event :=
  let s :=
    match Waiting (State containerStatus) with
    | Some waiting =>
      (* Detect failure reasons *)
      if isFailureReason (Waiting_Reason waiting) then
        (* Create unique key to avoid duplicate reports *)
        let statusKey :=
          waitingStatusKey podKey (Status_Name containerStatus) (Waiting_Reason waiting) in
        if negb (seenAt s.1 statusKey) then
          let '(info, tr) := gatherFailureInfo s.1 pod containerStatus waiting s.2 in
          let explanation := explainer.Explain info in
          let tr := tr ++ [ExplainCall statusKey info] in
          let tr := tr ++ [Stdout (explanation +:+ LF)] in
          let tr := tr ++ [Stdout (separator +:+ LF)] in
          (markSeen s.1 statusKey, tr)
        else s
      else s
    | None => s
    end in
  (* Check terminated state *)
  match Terminated (State containerStatus) with
  | Some terminated =>
    if bool_decide (Terminated_ExitCode terminated ≠ 0%Z) then
      let statusKey :=
        terminatedStatusKey podKey (Status_Name containerStatus) (Terminated_ExitCode terminated) in
      if negb (seenAt s.1 statusKey) then
        let '(info, tr) := gatherTerminationInfo s.1 pod containerStatus terminated s.2 in
        let explanation := explainer.Explain info in
        let tr := tr ++ [ExplainCall statusKey info] in
        let tr := tr ++ [Stdout (explanation +:+ LF)] in
        let tr := tr ++ [Stdout (separator +:+ LF)] in
        (markSeen s.1 statusKey, tr)
      else s
    else s
  | None => s
  end.

Definition checkPod (pod : Pod) (s : PodDetector * list event) : PodDetector * list event :=
  let podKey := podKeyOf pod in
  (* Check container statuses *)
  foldl (λ s containerStatus, checkContainer pod podKey containerStatus s)
        s (ContainerStatuses pod).

(** The loop of [WatchPods].  It has no exit but the error of a failed
    listing, so it is run for a number of [cycles]: the result is [Some err]
    when the loop returned [err], and [None] when it is still running after
    that many cycles. *)
Fixpoint WatchPods_loop (cycles : nat) (namespace : string)
    (s : PodDetector * list event) : option error * (PodDetector * list event) :=
  match cycles with
  | O => (None, s)
  | S cycles' =>
    let '(d, tr) := s in
    let listOptions := {| LabelSelector := ""; FieldSelector := "" |} in
    let listOptions :=
      if bool_decide (Opt_LabelSelector (options d) ≠ "") then
        {| LabelSelector := Opt_LabelSelector (options d);
           FieldSelector := FieldSelector listOptions |}
      else listOptions in
    let listOptions :=
      if bool_decide (Opt_PodName (options d) ≠ "") then
        {| LabelSelector := LabelSelector listOptions;
           FieldSelector := "metadata.name=" +:+ Opt_PodName (options d) |}
      else listOptions in
    let tr := tr ++ [Stdout ("[DEBUG] Querying namespace='" +:+ namespace +:+ "'" +:+ LF)] in
    let r := List (clientset d) tr namespace listOptions in
    let tr := tr ++ [PodsList namespace listOptions r] in
    match r with
    | inl err => (Some ("failed to list pods: " +:+ err), (d, tr))
    | inr pods =>
      (* Check each pod *)
      let s := foldl (λ s pod, checkPod pod s) (d, tr) pods in
      (* Wait before next check *)
      let s := (s.1, s.2 ++ [Sleep 10]) in
      WatchPods_loop cycles' namespace s
    end
  end.

(** WatchPods monitors pods for failures *)
Definition WatchPods (cycles : nat) (d : PodDetector) (namespace : string)
    : option error * (PodDetector * list event) :=
  let tr := [Stdout ("🔍 Watching pods in namespace: " +:+ namespace +:+ LF +:+ LF)] in
  WatchPods_loop cycles namespace (d, tr).

(** *** What a run shows *)

(** The status keys under which [Explain] was called, in order. *)
Definition explainedKeys (tr : list event) : list string :=
  omap (λ e, match e with ExplainCall k _ => Some k | _ => None end) tr.

(** The failure records given to [Explain], in order. *)
Definition explainedInfos (tr : list event) : list explainer.FailureInfo :=
  omap (λ e, match e with ExplainCall _ info => Some info | _ => None end) tr.

(** The log requests made, in order. *)
Definition logRequests (tr : list event) : list PodLogOptions :=
  omap (λ e, match e with PodsGetLogs _ _ o _ => Some o | _ => None end) tr.

(** The pods that the successful listings returned. *)
Definition listedPods (tr : list event) : list Pod :=
  mjoin (omap (λ e, match e with PodsList _ _ (inr pods) => Some pods | _ => None end) tr).

(** The status keys that [checkPod] builds for a pod: its failure conditions. *)
Definition containerKeys (podKey : string) (cs : ContainerStatus) : list string :=
  match Waiting (State cs) with
  | Some w => if isFailureReason (Waiting_Reason w)
              then [waitingStatusKey podKey (Status_Name cs) (Waiting_Reason w)] else []
  | None => []
  end ++
  match Terminated (State cs) with
  | Some t => if bool_decide (Terminated_ExitCode t ≠ 0%Z)
              then [terminatedStatusKey podKey (Status_Name cs) (Terminated_ExitCode t)] else []
  | None => []
  end.

Definition podKeys (pod : Pod) : list string :=
  mjoin (map (containerKeys (podKeyOf pod)) (ContainerStatuses pod)).

(** How often [Explain] was called under the status key [key]. *)
Definition timesExplained (key : string) (tr : list event) : nat :=
  length (filter (λ k, k = key) (explainedKeys tr)).


Definition inRunningState (cs : ContainerStatus) : Prop :=
  Waiting (State cs) = None ∧ Running (State cs) = Some () ∧ Terminated (State cs) = None.

Definition inTerminatedState (cs : ContainerStatus) (t : ContainerStateTerminated) : Prop :=
  Waiting (State cs) = None ∧ Running (State cs) = None ∧ Terminated (State cs) = Some t.

(** The four statements that both branches of [checkPod] run under
    [if !d.seen[statusKey]], for the record that [gather] builds. *)
Definition reportOnce (statusKey : string)
    (gather : PodDetector → list event → explainer.FailureInfo * list event)
    (s : PodDetector * list event) : PodDetector * list event :=
  if negb (seenAt s.1 statusKey) then
    let '(info, tr) := gather s.1 s.2 in
    let explanation := explainer.Explain info in
    let tr := tr ++ [ExplainCall statusKey info] in
    let tr := tr ++ [Stdout (explanation +:+ LF)] in
    let tr := tr ++ [Stdout (separator +:+ LF)] in
    (markSeen s.1 statusKey, tr)
  else s.

(** [gather] does one log request, for the last 10 lines, and nothing else. *)
Definition LogOnly
    (gather : PodDetector → list event → explainer.FailureInfo * list event) : Prop :=
  ∀ d tr, ∃ ns p c r,
    (gather d tr).2 = tr ++ [PodsGetLogs ns p {| Container := c; TailLines := Some 10%Z |} r].

(** The process went from [s] to [s'] by reporting: the trace grew by the
    events [new]; every key explained in [new] was unseen in [s] and is
    explained once; the keys seen in [s'] are those seen in [s] and those
    explained in [new]; every log request of [new] is for the last 10 lines. *)
Definition Steps (s s' : PodDetector * list event) : Prop :=
  ∃ new,
    s'.2 = s.2 ++ new
    ∧ clientset s'.1 = clientset s.1
    ∧ NoDup (explainedKeys new)
    ∧ (∀ k, k ∈ explainedKeys new → seenAt s.1 k = false)
    ∧ (∀ k, seenAt s'.1 k = true ↔ seenAt s.1 k = true ∨ k ∈ explainedKeys new)
    ∧ (∀ o, o ∈ logRequests new → TailLines o = Some 10%Z).

(** A failure record with its log tail dropped. *)
Definition withoutLog (info : explainer.FailureInfo) : explainer.FailureInfo :=
  {| explainer.PodName := explainer.PodName info;
     explainer.Namespace := explainer.Namespace info;
     explainer.ContainerName := explainer.ContainerName info;
     explainer.Reason := explainer.Reason info;
     explainer.Message := explainer.Message info;
     explainer.ExitCode := explainer.ExitCode info;
     explainer.LastLog := "" |}.

(** Two runs reported the same failures: the same keys are seen, [Explain]
    was called under the same keys in the same order, and on records that
    differ at most in their log tail. *)
Definition sameReports (s s' : PodDetector * list event) : Prop :=
  seen s.1 = seen s'.1
  ∧ explainedKeys s.2 = explainedKeys s'.2
  ∧ map withoutLog (explainedInfos s.2) = map withoutLog (explainedInfos s'.2).


(** The polling schedule of a run: the listings, successful or not, and
    the sleeps between them. *)
Inductive tick :=
  | Polled (ok : bool)
  | Slept (seconds : Z).

Definition schedule (tr : list event) : list tick :=
  omap (λ e, match e with
             | PodsList _ _ (inr _) => Some (Polled true)
             | PodsList _ _ (inl _) => Some (Polled false)
             | Sleep n => Some (Slept n)
             | _ => None
             end) tr.

(** The namespace and options of the listing calls, in order. *)
Definition listCalls (tr : list event) : list (string * ListOptions) :=
  omap (λ e, match e with PodsList ns o _ => Some (ns, o) | _ => None end) tr.

(** The [metav1.ListOptions] that [WatchPods] builds from the options of
    the detector, in closed form. *)
Definition listOptionsOf (opts : Options) : ListOptions :=
  {| LabelSelector := Opt_LabelSelector opts;
     FieldSelector := if bool_decide (Opt_PodName opts ≠ "")
                      then "metadata.name=" +:+ Opt_PodName opts else "" |}.

(** One report: the status key, the failure record and the answer to the
    log request made for it. *)
Definition report : Type := string * explainer.FailureInfo * (error + string).

(** The log tail that [getLastLog] makes of the answer to its request. *)
Definition logTailOf (r : error + string) : string :=
  match r with
  | inl _ => ""
  | inr logs => logs
  end.

(** The events of one report: the log request for the container of the
    record, the call of [Explain], the explanation and the separator line. *)
Definition reportBlock (x : report) : list event :=
  [PodsGetLogs (explainer.Namespace x.1.2) (explainer.PodName x.1.2)
     {| Container := explainer.ContainerName x.1.2; TailLines := Some 10%Z |} x.2;
   ExplainCall x.1.1 x.1.2;
   Stdout (explainer.Explain x.1.2 +:+ LF);
   Stdout (separator +:+ LF)].

(** [gather] makes the log request of the record it builds and nothing
    else, and the report it leads to under [key] satisfies [Q]. *)
Definition GathersWith (Q : report → Prop) (key : string)
    (gather : PodDetector → list event → explainer.FailureInfo * list event) : Prop :=
  ∀ d tr, ∃ r,
    (gather d tr).2
    = tr ++ [PodsGetLogs (explainer.Namespace (gather d tr).1)
               (explainer.PodName (gather d tr).1)
               {| Container := explainer.ContainerName (gather d tr).1;
                  TailLines := Some 10%Z |} r]
    ∧ Q (key, (gather d tr).1, r).

(** How often [Explain] was called on a record of container [container] of
    pod [pod] in namespace [ns]. *)
Definition timesExplainedFor (ns pod container : string) (tr : list event) : nat :=
  length (filter (λ info, explainer.Namespace info = ns
                          ∧ explainer.PodName info = pod
                          ∧ explainer.ContainerName info = container)
                 (explainedInfos tr)).

End detector.

(** ** Concrete inputs for the examples below *)
Module scenario.
Import corev1 detector.

Definition noState : ContainerState :=
  {| Waiting := None; Running := None; Terminated := None |}.

Definition waitingState (reason message : string) : ContainerState :=
  {| Waiting := Some {| Waiting_Reason := reason; Waiting_Message := message |};
     Running := None; Terminated := None |}.

Definition terminatedState (exitCode : Z) (reason message : string) : ContainerState :=
  {| Waiting := None; Running := None;
     Terminated := Some {| Terminated_ExitCode := exitCode;
                           Terminated_Reason := reason;
                           Terminated_Message := message |} |}.

Definition runningState : ContainerState :=
  {| Waiting := None; Running := Some (); Terminated := None |}.

(** A cluster whose listing always returns [pods] and whose log request
    always answers [log]. *)
Definition cluster (pods : list Pod) (log : error + string) : Clientset :=
  {| List := λ _ _ _, inr pods; GetLogs := λ _ _ _ _, log |}.

Definition noOptions : Options := {| Opt_PodName := ""; Opt_LabelSelector := "" |}.

(** Container app of pod web in namespace prod, waiting in a crash loop
    after having been killed with exit code 137. *)
Definition appCrashLoop : ContainerStatus :=
  {| Status_Name := "app";
     State := waitingState "CrashLoopBackOff" "back-off restarting failed container";
     LastTerminationState := terminatedState 137 "Error" "" |}.

Definition webPod : Pod :=
  {| Pod_Namespace := "prod"; Pod_Name := "web"; ContainerStatuses := [appCrashLoop] |}.

(** The same container, seen terminated with exit code 137 and no reason. *)
Definition appKilled : ContainerStatus :=
  {| Status_Name := "app";
     State := terminatedState 137 "" "";
     LastTerminationState := noState |}.

(** A container that exited with code 1 and no reason. *)
Definition appExit1 : ContainerStatus :=
  {| Status_Name := "app";
     State := terminatedState 1 "" "";
     LastTerminationState := noState |}.

Definition appOOMKilled : ContainerStatus :=
  {| Status_Name := "app";
     State := terminatedState 137 "OOMKilled" "";
     LastTerminationState := noState |}.

Definition appWaitingOOM : ContainerStatus :=
  {| Status_Name := "app";
     State := waitingState "OOMKilled" "";
     LastTerminationState := noState |}.

Definition appCompleted : ContainerStatus :=
  {| Status_Name := "app";
     State := terminatedState 0 "Completed" "";
     LastTerminationState := noState |}.

(** Two pods of one namespace whose names and container names differ
    only in where the hyphen falls. *)
Definition web1Pod : Pod :=
  {| Pod_Namespace := "prod"; Pod_Name := "web-1";
     ContainerStatuses :=
       [{| Status_Name := "app"; State := waitingState "CrashLoopBackOff" "";
           LastTerminationState := noState |}] |}.

Definition webPod1App : Pod :=
  {| Pod_Namespace := "prod"; Pod_Name := "web";
     ContainerStatuses :=
       [{| Status_Name := "1-app"; State := waitingState "CrashLoopBackOff" "";
           LastTerminationState := noState |}] |}.

(** A pod whose image cannot be pulled, and a cluster that lists it on
    every poll and has no logs for it. *)
Definition pullPod : Pod :=
  {| Pod_Namespace := "prod"; Pod_Name := "web";
     ContainerStatuses :=
       [{| Status_Name := "app"; State := waitingState "ImagePullBackOff" "";
           LastTerminationState := noState |}] |}.

Definition pullCluster : Clientset :=
  cluster [pullPod] (inl "container is waiting to start").

(** A failure record with an image-pull reason and a log tail. *)
Definition imagePullInfo : explainer.FailureInfo :=
  {| explainer.PodName := "web"; explainer.Namespace := "prod";
     explainer.ContainerName := "app"; explainer.Reason := "ImagePullBackOff";
     explainer.Message := ""; explainer.ExitCode := 0;
     explainer.LastLog := "fatal: OOM" |}.

Definition crashLoopInfo (podName message : string) : explainer.FailureInfo :=
  {| explainer.PodName := podName; explainer.Namespace := "prod";
     explainer.ContainerName := "app"; explainer.Reason := "CrashLoopBackOff";
     explainer.Message := message; explainer.ExitCode := 137;
     explainer.LastLog := "fatal: OOM" |}.

(** A container that exited with an error and the reason Error. *)
Definition errorInfo : explainer.FailureInfo :=
  {| explainer.PodName := "web"; explainer.Namespace := "prod";
     explainer.ContainerName := "app"; explainer.Reason := "Error";
     explainer.Message := "exec format error"; explainer.ExitCode := 137;
     explainer.LastLog := "fatal: OOM" |}.

(** A cluster whose listing always fails. *)
Definition unreachable : Clientset :=
  {| List := λ _ _ _, inl "connection refused"; GetLogs := λ _ _ _ _, inl "connection refused" |}.

End scenario.

(** * Properties *)

Import corev1 explainer detector.

(** ** Strings *)

Lemma append_cons (c : Ascii.ascii) (a b : string) : String c a +:+ b = String c (a +:+ b).
Proof. reflexivity. Qed.

Lemma append_assoc (a b c : string) : (a +:+ b) +:+ c = a +:+ b +:+ c.
Proof. induction a as [|x a IH]; [done | by rewrite !append_cons, IH]. Qed.

Lemma append_nil_r (a : string) : a +:+ "" = a.
Proof. induction a as [|x a IH]; [done | by rewrite append_cons, IH]. Qed.

Lemma Contains_refl (s : string) : Contains s s.
Proof. exists "", "". by rewrite append_nil_r. Qed.

Lemma Contains_app_l (a b sub : string) : Contains a sub → Contains (a +:+ b) sub.
Proof.
  intros (pre & post & ->). exists pre, (post +:+ b).
  by rewrite !append_assoc.
Qed.

Lemma Contains_app_r (a b sub : string) : Contains b sub → Contains (a +:+ b) sub.
Proof.
  intros (pre & post & ->). exists (a +:+ pre), post.
  by rewrite !append_assoc.
Qed.

Lemma hasPrefix_spec (s p : string) : hasPrefix s p = true ↔ ∃ post, s = p +:+ post.
Proof.
  revert s. induction p as [|c p IH]; intros s.
  - split; [intros _; by exists s | done].
  - destruct s as [|d s]; cbn [hasPrefix].
    + split; [done | intros [post Hp]; by rewrite append_cons in Hp].
    + destruct (Ascii.eqb_spec c d) as [->|Hne].
      * rewrite IH. split; intros [post Hp]; exists post;
          rewrite append_cons in *; congruence.
      * split; [done | intros [post Hp]; rewrite append_cons in Hp; congruence].
Qed.

Lemma containsb_spec (s sub : string) : containsb s sub = true ↔ Contains s sub.
Proof.
  induction s as [|c s IH]; cbn [containsb].
  - rewrite orb_false_r, hasPrefix_spec. split.
    + intros [post Hp]. by exists "", post.
    + intros (pre & post & Hp). destruct pre as [|c pre]; [by exists post |].
      by rewrite append_cons in Hp.
  - rewrite orb_true_iff, hasPrefix_spec, IH. split.
    + intros [[post Hp] | (pre & post & Hp)].
      * by exists "", post.
      * exists (String c pre), post. by rewrite append_cons, Hp.
    + intros (pre & post & Hp). destruct pre as [|c' pre].
      * left. by exists post.
      * right. exists pre, post. rewrite append_cons in Hp. congruence.
Qed.

Lemma not_Contains (s sub : string) : containsb s sub = false → ¬ Contains s sub.
Proof. intros Hb Hc. apply containsb_spec in Hc. congruence. Qed.

(** Walks down a concatenation to the operand that is the substring. *)
Ltac find_substring :=
  lazymatch goal with
  | |- Contains ?sub ?sub => apply Contains_refl
  | |- Contains (?a +:+ ?b) ?sub =>
      lazymatch a with
      | context [sub] => apply Contains_app_l; find_substring
      | _ => apply Contains_app_r; find_substring
      end
  end.

(** ** The reason classifier *)

(** C7: [isFailureReason] is true exactly on the six waiting reasons of its
    list and false on every other string; the comparison is exact, so the
    lower-case spelling of a listed reason is rejected. *)
Theorem isFailureReason_exact :
  (∀ reason : string,
     isFailureReason reason = true ↔
     reason ∈ ["CrashLoopBackOff"; "ImagePullBackOff"; "ErrImagePull";
               "CreateContainerConfigError"; "InvalidImageName"; "RunContainerError"])
  ∧ isFailureReason "crashloopbackoff" = false.
Proof.
  split; [| reflexivity].
  intros reason. unfold isFailureReason, failureReasons.
  rewrite !elem_of_cons, elem_of_nil.
  repeat match goal with
         | |- context [String.eqb reason ?fr] =>
             destruct (String.eqb_spec reason fr) as [-> | ?]
         end;
    (split; [intros Ht; first [done | auto 10]
            | intros Hin; first [done | intuition congruence]]).
Qed.

(** ** The exit-code annotation *)

Lemma explainExitCode_default (code : Z) :
  code ∉ [0; 1; 2; 126; 127; 130; 137; 139; 143; 255]%Z →
  explainExitCode code =
    "→ Exit code " +:+ pretty code +:+ ": Check application documentation".
Proof.
  intros Hout.
  destruct code as [|p|p]; [| | reflexivity].
  - exfalso. apply Hout. apply list_elem_of_here.
  - do 8 (try (destruct p as [p|p|]; try reflexivity));
      exfalso; apply Hout; rewrite !elem_of_cons; tauto.
Qed.

(** C4: the exit-code annotation is a closed lookup.  Each of the ten codes
    of the table has its fixed description; every other code gets the
    generic message, which holds the code in decimal and the words
    Check application documentation. *)
Theorem explainExitCode_closed_lookup :
  explainExitCode 0 = "→ Exit code 0: Success (but should not crash)"
  ∧ explainExitCode 1 = "→ Exit code 1: Application error - check your code for bugs"
  ∧ explainExitCode 2 = "→ Exit code 2: Misuse of shell command"
  ∧ explainExitCode 126 = "→ Exit code 126: Command cannot execute (permission problem?)"
  ∧ explainExitCode 127 = "→ Exit code 127: Command not found (binary doesn't exist?)"
  ∧ explainExitCode 130 = "→ Exit code 130: Terminated by Ctrl+C (SIGINT)"
  ∧ explainExitCode 137 =
      "→ Exit code 137: Killed by SIGKILL (usually OOM or forced termination)"
  ∧ explainExitCode 139 = "→ Exit code 139: Segmentation fault (memory access violation)"
  ∧ explainExitCode 143 = "→ Exit code 143: Terminated by SIGTERM (graceful shutdown)"
  ∧ explainExitCode 255 = "→ Exit code 255: Exit status out of range"
  ∧ ∀ code : Z,
      code ∉ [0; 1; 2; 126; 127; 130; 137; 139; 143; 255]%Z →
      explainExitCode code =
        "→ Exit code " +:+ pretty code +:+ ": Check application documentation"
      ∧ Contains (explainExitCode code) (pretty code)
      ∧ Contains (explainExitCode code) "Check application documentation".
Proof.
  repeat (split; [reflexivity |]).
  intros code Hout. rewrite (explainExitCode_default code Hout).
  split; [reflexivity | split].
  - find_substring.
  - apply Contains_app_r, Contains_app_r.
    by exists ": ", "".
Qed.

(** The fallback on a code outside the table. *)
Lemma explainExitCode_closed_lookup_witness :
  explainExitCode 3 = "→ Exit code 3: Check application documentation"
  ∧ explainExitCode (-1) = "→ Exit code -1: Check application documentation".
Proof.
  split.
  - apply (explainExitCode_closed_lookup).
    apply (bool_decide_unpack _). vm_compute. exact I.
  - apply (explainExitCode_closed_lookup).
    apply (bool_decide_unpack _). vm_compute. exact I.
Defined.

(** ** The narratives *)

Lemma selectNarrative_CrashLoop (reason : string) :
  selectNarrative reason = CrashLoop ↔ reason = "CrashLoopBackOff".
Proof.
  unfold selectNarrative.
  destruct (String.eqb_spec reason "CrashLoopBackOff") as [-> | Hne]; [done |].
  split; [| done].
  repeat match goal with
         | |- context [String.eqb reason ?r] =>
             destruct (String.eqb_spec reason r) as [-> | ?]
         end; done.
Qed.


(** Only the crash-loop narrative reads the log tail. *)
Lemma renderNarrative_ignores_LastLog (n : narrative) (info : FailureInfo) (log : string) :
  n ≠ CrashLoop →
  renderNarrative n
    {| PodName := PodName info; Namespace := Namespace info;
       ContainerName := ContainerName info; Reason := Reason info;
       Message := Message info; ExitCode := ExitCode info; LastLog := log |}
  = renderNarrative n info.
Proof. intros Hn. destruct n; [done | reflexivity ..]. Qed.

Lemma Explain_crash_loop_log (info : FailureInfo) :
  Reason info = "CrashLoopBackOff" → LastLog info ≠ "" →
  Contains (Explain info) (LastLog info).
Proof.
  intros Hr Hlog. unfold Explain. rewrite Hr.
  change (selectNarrative "CrashLoopBackOff") with CrashLoop.
  cbv zeta. apply Contains_app_r.
  unfold renderNarrative, explainCrashLoopBackOff. cbv zeta.
  rewrite (bool_decide_true (LastLog info ≠ "")) by done.
  case_bool_decide; find_substring.
Qed.

(** ** The detector: one report per status key *)

Lemma seenAt_markSeen (d : PodDetector) (key k : string) :
  seenAt (markSeen d key) k = true ↔ k = key ∨ seenAt d k = true.
Proof.
  unfold seenAt, markSeen; cbn [seen].
  destruct (decide (key = k)) as [-> | Hne].
  - rewrite lookup_insert_eq. cbn. tauto.
  - rewrite lookup_insert_ne by done. split; [tauto | intros [-> | ?]; done].
Qed.

Lemma explainedKeys_app (tr tr' : list event) :
  explainedKeys (tr ++ tr') = explainedKeys tr ++ explainedKeys tr'.
Proof. apply omap_app. Qed.

Lemma explainedInfos_app (tr tr' : list event) :
  explainedInfos (tr ++ tr') = explainedInfos tr ++ explainedInfos tr'.
Proof. apply omap_app. Qed.

Lemma logRequests_app (tr tr' : list event) :
  logRequests (tr ++ tr') = logRequests tr ++ logRequests tr'.
Proof. apply omap_app. Qed.

Lemma listedPods_app (tr tr' : list event) :
  listedPods (tr ++ tr') = listedPods tr ++ listedPods tr'.
Proof. unfold listedPods. by rewrite omap_app, join_app. Qed.

Lemma Steps_refl (s : PodDetector * list event) : Steps s s.
Proof.
  exists []. rewrite app_nil_r. cbn.
  repeat split; try done.
  - constructor.
  - intros k Hk. by apply elem_of_nil in Hk.
  - tauto.
  - intros [? | Hk]; [done | by apply elem_of_nil in Hk].
  - intros o Ho. by apply elem_of_nil in Ho.
Qed.

Lemma not_true_false (b : bool) : b ≠ true → b = false.
Proof. by destruct b. Qed.

Lemma Steps_trans (s1 s2 s3 : PodDetector * list event) :
  Steps s1 s2 → Steps s2 s3 → Steps s1 s3.
Proof.
  intros (n1 & Ht1 & Hc1 & Hnd1 & Hun1 & Hs1 & Hl1) (n2 & Ht2 & Hc2 & Hnd2 & Hun2 & Hs2 & Hl2).
  exists (n1 ++ n2). rewrite explainedKeys_app, logRequests_app.
  split; [by rewrite Ht2, Ht1, app_assoc |].
  split; [congruence |].
  split.
  { apply NoDup_app. split; [done | split; [| done]].
    intros k Hk1 Hk2. apply Hun2 in Hk2.
    assert (seenAt s2.1 k = true) by (apply Hs1; by right). congruence. }
  split.
  { intros k [Hk | Hk]%elem_of_app; [by apply Hun1 |].
    apply not_true_false. intros Hseen. apply Hun2 in Hk.
    assert (seenAt s2.1 k = true) by (apply Hs1; by left). congruence. }
  split.
  { intros k. rewrite Hs2, Hs1, elem_of_app. tauto. }
  intros o [Ho | Ho]%elem_of_app; auto.
Qed.

Lemma gatherFailureInfo_LogOnly (pod : Pod) (cs : ContainerStatus) (w : ContainerStateWaiting) :
  LogOnly (λ d tr, gatherFailureInfo d pod cs w tr).
Proof.
  intros d tr. unfold gatherFailureInfo, getLastLog. cbv zeta.
  exists (Pod_Namespace pod), (Pod_Name pod), (Status_Name cs),
    (GetLogs (clientset d) tr (Pod_Namespace pod) (Pod_Name pod)
       {| Container := Status_Name cs; TailLines := Some 10%Z |}).
  by destruct (GetLogs _ _ _ _ _).
Qed.

Lemma gatherTerminationInfo_LogOnly (pod : Pod) (cs : ContainerStatus)
    (t : ContainerStateTerminated) :
  LogOnly (λ d tr, gatherTerminationInfo d pod cs t tr).
Proof.
  intros d tr. unfold gatherTerminationInfo, getLastLog. cbv zeta.
  exists (Pod_Namespace pod), (Pod_Name pod), (Status_Name cs),
    (GetLogs (clientset d) tr (Pod_Namespace pod) (Pod_Name pod)
       {| Container := Status_Name cs; TailLines := Some 10%Z |}).
  by destruct (GetLogs _ _ _ _ _).
Qed.

Lemma reportOnce_seen (key : string) gather (s : PodDetector * list event) :
  seenAt s.1 key = true → reportOnce key gather s = s.
Proof. intros Hs. unfold reportOnce. by rewrite Hs. Qed.

Lemma reportOnce_unseen (key : string) gather (s : PodDetector * list event) :
  seenAt s.1 key = false →
  reportOnce key gather s =
    (markSeen s.1 key,
     (gather s.1 s.2).2 ++
       [ExplainCall key (gather s.1 s.2).1;
        Stdout (Explain (gather s.1 s.2).1 +:+ LF);
        Stdout (separator +:+ LF)]).
Proof.
  intros Hs. unfold reportOnce. rewrite Hs. cbn [negb].
  destruct (gather s.1 s.2) as [info tr]. cbn [fst snd].
  by rewrite <- !app_assoc.
Qed.

Lemma reportOnce_Steps (key : string) gather (s : PodDetector * list event) :
  LogOnly gather → Steps s (reportOnce key gather s).
Proof.
  intros Hg. destruct (seenAt s.1 key) eqn:Hs.
  { rewrite reportOnce_seen by done. apply Steps_refl. }
  rewrite reportOnce_unseen by done.
  destruct (Hg s.1 s.2) as (ns & p & c & r & ->).
  eexists. split; [cbn [snd]; by rewrite <- app_assoc |].
  cbn. repeat split.
  - apply NoDup_singleton.
  - by intros k ->%list_elem_of_singleton.
  - intros [-> | ?]%seenAt_markSeen; [right; apply list_elem_of_here | by left].
  - intros [? | ->%list_elem_of_singleton]; apply seenAt_markSeen; auto.
  - by intros o ->%list_elem_of_singleton.
Qed.

Lemma checkContainer_reportOnce (pod : Pod) (podKey : string) (cs : ContainerStatus)
    (s : PodDetector * list event) :
  checkContainer pod podKey cs s =
    let s :=
      match Waiting (State cs) with
      | Some w =>
        if isFailureReason (Waiting_Reason w)
        then reportOnce (waitingStatusKey podKey (Status_Name cs) (Waiting_Reason w))
                        (λ d tr, gatherFailureInfo d pod cs w tr) s
        else s
      | None => s
      end in
    match Terminated (State cs) with
    | Some t =>
      if bool_decide (Terminated_ExitCode t ≠ 0%Z)
      then reportOnce (terminatedStatusKey podKey (Status_Name cs) (Terminated_ExitCode t))
                      (λ d tr, gatherTerminationInfo d pod cs t tr) s
      else s
    | None => s
    end.
Proof. reflexivity. Qed.

Lemma checkContainer_Steps (pod : Pod) (podKey : string) (cs : ContainerStatus)
    (s : PodDetector * list event) :
  Steps s (checkContainer pod podKey cs s).
Proof.
  rewrite checkContainer_reportOnce. cbv zeta.
  match goal with
  | |- Steps _ (match _ with Some _ => _ | None => ?s1 end) =>
      assert (Steps s s1) as Hw;
      [| apply (Steps_trans _ _ _ Hw); generalize s1; intros s']
  end.
  - repeat case_match; first
      [ apply reportOnce_Steps, gatherFailureInfo_LogOnly | apply Steps_refl ].
  - repeat case_match; first
      [ apply reportOnce_Steps, gatherTerminationInfo_LogOnly | apply Steps_refl ].
Qed.

Lemma foldl_Steps {A} (f : PodDetector * list event → A → PodDetector * list event)
    (l : list A) (s : PodDetector * list event) :
  (∀ s x, Steps s (f s x)) → Steps s (foldl f s l).
Proof.
  intros Hf. revert s. induction l as [|x l IH]; intros s; cbn [foldl].
  - apply Steps_refl.
  - eapply Steps_trans; [apply Hf | apply IH].
Qed.

Lemma checkPod_Steps (pod : Pod) (s : PodDetector * list event) :
  Steps s (checkPod pod s).
Proof. apply foldl_Steps. intros; apply checkContainer_Steps. Qed.

Lemma Steps_seen_mono (s s' : PodDetector * list event) (k : string) :
  Steps s s' → seenAt s.1 k = true → seenAt s'.1 k = true.
Proof. intros (new & _ & _ & _ & _ & Hs & _) Hk. apply Hs. by left. Qed.

Lemma Steps_emit (d : PodDetector) (tr new : list event) :
  explainedKeys new = [] → logRequests new = [] → Steps (d, tr) (d, tr ++ new).
Proof.
  intros Hk Hl. exists new. rewrite Hk, Hl. cbn.
  repeat split; try done.
  - constructor.
  - intros k Hin. by apply elem_of_nil in Hin.
  - tauto.
  - intros [? | Hin]; [done | by apply elem_of_nil in Hin].
  - intros o Hin. by apply elem_of_nil in Hin.
Qed.

Lemma WatchPods_loop_Steps (cycles : nat) (namespace : string)
    (s : PodDetector * list event) :
  Steps s (WatchPods_loop cycles namespace s).2.
Proof.
  revert s. induction cycles as [|n IH]; intros [d tr]; cbn [WatchPods_loop].
  { apply Steps_refl. }
  cbv zeta.
  match goal with |- context [List (clientset d) ?t ?ns ?o] =>
    generalize o; intros listOptions; destruct (List (clientset d) t ns listOptions) as [err | pods]
  end; cbn [snd].
  - rewrite <- app_assoc. by apply Steps_emit.
  - eapply Steps_trans; [| apply IH].
    rewrite <- (app_assoc tr).
    match goal with
    | |- Steps _ (?X.1, ?X.2 ++ ?sl) =>
        apply (Steps_trans _ X); [| destruct X as [d' tr']; by apply Steps_emit]
    end.
    match goal with
    | |- Steps _ (foldl ?f (d, tr ++ ?new) pods) =>
        apply (Steps_trans _ (d, tr ++ new)); [by apply Steps_emit |]
    end.
    apply (foldl_Steps (λ s pod, checkPod pod s)). intros; apply checkPod_Steps.
Qed.

(** *** Every listed failure condition ends up seen *)

Lemma reportOnce_marks (key : string) gather (s : PodDetector * list event) :
  seenAt (reportOnce key gather s).1 key = true.
Proof.
  destruct (seenAt s.1 key) eqn:Hs.
  - by rewrite reportOnce_seen.
  - rewrite reportOnce_unseen by done. apply seenAt_markSeen. by left.
Qed.

Lemma reportOnce_listedPods (key : string) gather (s : PodDetector * list event) :
  LogOnly gather → listedPods (reportOnce key gather s).2 = listedPods s.2.
Proof.
  intros Hg. destruct (seenAt s.1 key) eqn:Hs.
  - by rewrite reportOnce_seen.
  - rewrite reportOnce_unseen by done. cbn [snd].
    destruct (Hg s.1 s.2) as (ns & p & c & r & ->).
    rewrite !listedPods_app. cbn. by rewrite !app_nil_r.
Qed.

Lemma checkContainer_listedPods (pod : Pod) (podKey : string) (cs : ContainerStatus)
    (s : PodDetector * list event) :
  listedPods (checkContainer pod podKey cs s).2 = listedPods s.2.
Proof.
  rewrite checkContainer_reportOnce. cbv zeta.
  repeat case_match;
    rewrite ?reportOnce_listedPods
      by first [apply gatherTerminationInfo_LogOnly | apply gatherFailureInfo_LogOnly];
    done.
Qed.

Lemma checkPod_listedPods (pod : Pod) (s : PodDetector * list event) :
  listedPods (checkPod pod s).2 = listedPods s.2.
Proof.
  unfold checkPod. generalize (podKeyOf pod). intros podKey. revert s.
  induction (ContainerStatuses pod) as [|cs l IH]; intros s; cbn [foldl]; [done |].
  by rewrite IH, checkContainer_listedPods.
Qed.

Lemma checkPods_listedPods (pods : list Pod) (s : PodDetector * list event) :
  listedPods (foldl (λ s pod, checkPod pod s) s pods).2 = listedPods s.2.
Proof.
  revert s. induction pods as [|pod l IH]; intros s; cbn [foldl]; [done |].
  by rewrite IH, checkPod_listedPods.
Qed.

Lemma checkContainer_keys_seen (pod : Pod) (podKey : string) (cs : ContainerStatus)
    (s : PodDetector * list event) (k : string) :
  k ∈ containerKeys podKey cs → seenAt (checkContainer pod podKey cs s).1 k = true.
Proof.
  rewrite checkContainer_reportOnce. unfold containerKeys. cbv zeta.
  intros [Hk | Hk]%elem_of_app.
  - match goal with
    | |- seenAt (match _ with Some _ => _ | None => ?s1 end).1 _ = _ =>
        assert (seenAt s1.1 k = true) as Hw;
        [| revert Hw; generalize s1; intros s' Hw]
    end.
    + repeat case_match; try (by apply elem_of_nil in Hk).
      apply list_elem_of_singleton in Hk as ->. apply reportOnce_marks.
    + repeat case_match; try done;
        (eapply Steps_seen_mono; [| done]);
        apply reportOnce_Steps, gatherTerminationInfo_LogOnly.
  - repeat case_match; try (by apply elem_of_nil in Hk);
      apply list_elem_of_singleton in Hk as ->; apply reportOnce_marks.
Qed.

Lemma checkPod_keys_seen (pod : Pod) (s : PodDetector * list event) (k : string) :
  k ∈ podKeys pod → seenAt (checkPod pod s).1 k = true.
Proof.
  unfold checkPod, podKeys. generalize (podKeyOf pod). intros podKey. revert s.
  induction (ContainerStatuses pod) as [|cs l IH]; intros s; cbn [foldl map mjoin list_join].
  - intros Hk. by apply elem_of_nil in Hk.
  - intros [Hk | Hk]%elem_of_app; [| by apply IH].
    eapply Steps_seen_mono.
    + apply (foldl_Steps (λ s cs, checkContainer pod podKey cs s)).
      intros; apply checkContainer_Steps.
    + by apply checkContainer_keys_seen.
Qed.

Lemma checkPods_keys_seen (pods : list Pod) (s : PodDetector * list event)
    (pod : Pod) (k : string) :
  pod ∈ pods → k ∈ podKeys pod →
  seenAt (foldl (λ s pod, checkPod pod s) s pods).1 k = true.
Proof.
  revert s. induction pods as [|p l IH]; intros s Hpod Hk; cbn [foldl].
  - by apply elem_of_nil in Hpod.
  - apply elem_of_cons in Hpod as [-> | Hpod]; [| by apply IH].
    eapply Steps_seen_mono.
    + apply (foldl_Steps (λ s pod, checkPod pod s)). intros; apply checkPod_Steps.
    + by apply checkPod_keys_seen.
Qed.

Lemma WatchPods_loop_listed_seen (cycles : nat) (namespace : string)
    (s : PodDetector * list event) :
  (∀ pod k, pod ∈ listedPods s.2 → k ∈ podKeys pod → seenAt s.1 k = true) →
  ∀ pod k, pod ∈ listedPods (WatchPods_loop cycles namespace s).2.2 →
           k ∈ podKeys pod →
           seenAt (WatchPods_loop cycles namespace s).2.1 k = true.
Proof.
  revert s. induction cycles as [|n IH]; intros [d tr] Hinv; cbn [WatchPods_loop]; [done |].
  cbv zeta.
  match goal with |- context [List (clientset d) ?t ?ns ?o] =>
    generalize o; intros listOptions; destruct (List (clientset d) t ns listOptions) as [err | pods]
  end; cbn [fst snd].
  - intros pod k. rewrite !listedPods_app. cbn. rewrite !app_nil_r. apply Hinv.
  - apply IH. cbn [fst snd]. intros pod k.
    rewrite listedPods_app, checkPods_listedPods. cbn [snd].
    rewrite !listedPods_app. cbn. rewrite !app_nil_r.
    intros [Hpod | Hpod]%elem_of_app Hk.
    + eapply Steps_seen_mono.
      * apply (foldl_Steps (λ s pod, checkPod pod s)). intros; apply checkPod_Steps.
      * by apply (Hinv pod).
    + by apply checkPods_keys_seen with pod.
Qed.

(** *** Counting the calls of [Explain] *)

Lemma timesExplained_app (key : string) (tr tr' : list event) :
  timesExplained key (tr ++ tr') = timesExplained key tr + timesExplained key tr'.
Proof. unfold timesExplained. by rewrite explainedKeys_app, filter_app, length_app. Qed.

Lemma count_not_elem (key : string) (l : list string) :
  key ∉ l → length (filter (λ k, k = key) l) = 0.
Proof.
  induction l as [|x l IH]; [done |].
  intros [Hne Hl]%not_elem_of_cons. rewrite filter_cons_False by congruence. auto.
Qed.

Lemma count_NoDup (key : string) (l : list string) :
  NoDup l → key ∈ l → length (filter (λ k, k = key) l) = 1.
Proof.
  induction 1 as [|x l Hx Hnd IH]; intros Hin.
  - by apply elem_of_nil in Hin.
  - apply elem_of_cons in Hin as [-> | Hin].
    + rewrite filter_cons_True by done. cbn. by rewrite count_not_elem.
    + rewrite filter_cons_False; [by apply IH |].
      intros ->. done.
Qed.

Lemma count_NoDup_le (key : string) (l : list string) :
  NoDup l → length (filter (λ k, k = key) l) ≤ 1.
Proof.
  intros Hnd. destruct (decide (key ∈ l)).
  - by rewrite count_NoDup.
  - rewrite count_not_elem by done. lia.
Qed.

Lemma seenAt_New (c : Clientset) (opts : Options) (k : string) :
  seenAt (New c opts) k = false.
Proof. reflexivity. Qed.

Lemma Steps_seen_never_again (s s' : PodDetector * list event) (key : string) :
  Steps s s' → seenAt s.1 key = true → timesExplained key s'.2 = timesExplained key s.2.
Proof.
  intros (new & -> & _ & _ & Hun & _) Hs. rewrite timesExplained_app.
  unfold timesExplained at 2. rewrite count_not_elem; [lia |].
  intros Hin. apply Hun in Hin. congruence.
Qed.

(** X16: status keys are explained once.  Over a run of [WatchPods] from a
    fresh detector, for any cluster and any number of polling cycles,
    [Explain] is called at most once under each status key; under the key of
    every failure condition that some poll listed (on one poll or on many)
    it has been called exactly once, for the first condition that gave the
    key; and once a key is in the seen set, neither a further [checkPod] nor
    any number of further cycles calls [Explain] under it again. *)
Theorem explained_once_per_status_key
    (c : Clientset) (opts : Options) (namespace : string) (cycles : nat) :
  let s := (WatchPods cycles (New c opts) namespace).2 in
  (∀ key, timesExplained key s.2 ≤ 1)
  ∧ (∀ pod key, pod ∈ listedPods s.2 → key ∈ podKeys pod → timesExplained key s.2 = 1)
  ∧ (∀ (s0 : PodDetector * list event) key, seenAt s0.1 key = true →
       (∀ pod, timesExplained key (checkPod pod s0).2 = timesExplained key s0.2)
       ∧ (∀ more, timesExplained key (WatchPods_loop more namespace s0).2.2
                  = timesExplained key s0.2)).
Proof.
  cbv zeta. unfold WatchPods.
  match goal with |- context [WatchPods_loop cycles namespace ?s0] => set (init := s0) end.
  pose proof (WatchPods_loop_Steps cycles namespace init) as Hsteps.
  pose proof (WatchPods_loop_listed_seen cycles namespace init) as Hlisted.
  destruct Hsteps as (new & Htr & _ & Hnd & _ & Hseen & _).
  assert (explainedKeys (WatchPods_loop cycles namespace init).2.2 = explainedKeys new) as Hkeys.
  { rewrite Htr, explainedKeys_app. done. }
  split; [| split].
  - intros key. unfold timesExplained. rewrite Hkeys. by apply count_NoDup_le.
  - intros pod key Hpod Hkey. unfold timesExplained. rewrite Hkeys.
    apply count_NoDup; [done |].
    specialize (Hlisted ltac:(intros ? ? Hin; by apply elem_of_nil in Hin) pod key Hpod Hkey).
    apply Hseen in Hlisted as [Hinit | Hin]; [| done].
    unfold init in Hinit. cbn [fst] in Hinit. by rewrite seenAt_New in Hinit.
  - intros s0 key Hs0. split.
    + intros pod. apply Steps_seen_never_again; [apply checkPod_Steps | done].
    + intros more. apply Steps_seen_never_again; [apply WatchPods_loop_Steps | done].
Qed.

Lemma explained_once_per_status_key_witness :
  timesExplained "prod/web-app-ImagePullBackOff"
    (WatchPods 2 (New scenario.pullCluster scenario.noOptions) "prod").2.2 = 1.
Proof.
  pose proof (explained_once_per_status_key
                scenario.pullCluster scenario.noOptions "prod" 2) as H.
  cbv zeta in H. destruct H as (_ & H & _).
  apply (H scenario.pullPod).
  - vm_compute. apply list_elem_of_here.
  - vm_compute. apply list_elem_of_here.
Defined.

(** C1, evaluated on two polls of namespace prod that both list pod web-1
    with container app and pod web with container 1-app, both waiting in a
    crash loop: the failure of pod web is observed on both polls and gives
    the same status key each time, and [Explain] is called once under that
    key, but on the record of pod web-1; for the failure of pod web it is
    never called. *)
Theorem colliding_failure_is_never_explained :
  listedPods
    (WatchPods 2
       (New (scenario.cluster [scenario.web1Pod; scenario.webPod1App] (inr ""))
            scenario.noOptions) "prod").2.2
  = [scenario.web1Pod; scenario.webPod1App; scenario.web1Pod; scenario.webPod1App]
  ∧ podKeys scenario.webPod1App = ["prod/web-1-app-CrashLoopBackOff"]
  ∧ timesExplained "prod/web-1-app-CrashLoopBackOff"
      (WatchPods 2
         (New (scenario.cluster [scenario.web1Pod; scenario.webPod1App] (inr ""))
              scenario.noOptions) "prod").2.2
    = 1
  ∧ timesExplainedFor "prod" "web-1" "app"
      (WatchPods 2
         (New (scenario.cluster [scenario.web1Pod; scenario.webPod1App] (inr ""))
              scenario.noOptions) "prod").2.2
    = 1
  ∧ timesExplainedFor "prod" "web" "1-app"
      (WatchPods 2
         (New (scenario.cluster [scenario.web1Pod; scenario.webPod1App] (inr ""))
              scenario.noOptions) "prod").2.2
    = 0.
Proof. repeat split; vm_compute; reflexivity. Qed.

(** ** What the narratives include *)

(** C3, as stated, fails: the image-pull narrative of a record with the
    log tail fatal: OOM does not hold that text. *)
Lemma image_pull_narrative_drops_log_tail :
  ¬ (∀ info : FailureInfo, LastLog info ≠ "" → Contains (Explain info) (LastLog info)).
Proof.
  intros Hall.
  apply (not_Contains (Explain scenario.imagePullInfo) (LastLog scenario.imagePullInfo)).
  - vm_compute. reflexivity.
  - by apply Hall.
Qed.

(** C3, amended: a record with a non-empty log tail has it in its
    explanation when its reason is CrashLoopBackOff; under any other reason
    the explanation does not depend on the log tail at all. *)
Theorem Explain_log_tail (info : FailureInfo) :
  LastLog info ≠ "" →
  (Reason info = "CrashLoopBackOff" → Contains (Explain info) (LastLog info))
  ∧ (Reason info ≠ "CrashLoopBackOff" →
     ∀ log : string,
       Explain {| PodName := PodName info; Namespace := Namespace info;
                  ContainerName := ContainerName info; Reason := Reason info;
                  Message := Message info; ExitCode := ExitCode info;
                  LastLog := log |}
       = Explain info).
Proof.
  intros Hlog. split.
  - intros Hr. by apply Explain_crash_loop_log.
  - intros Hr log. unfold Explain. cbn [PodName Namespace ContainerName Reason].
    cbv zeta. f_equal.
    apply renderNarrative_ignores_LastLog.
    by rewrite selectNarrative_CrashLoop.
Qed.

Lemma Explain_log_tail_witness :
  LastLog (scenario.crashLoopInfo "web" "") ≠ ""
  ∧ Contains (Explain (scenario.crashLoopInfo "web" "")) "fatal: OOM".
Proof.
  split; [discriminate |].
  apply (Explain_log_tail (scenario.crashLoopInfo "web" "")); [discriminate | reflexivity].
Defined.

Lemma Explain_crash_loop_exit_code (info : FailureInfo) :
  Reason info = "CrashLoopBackOff" → ExitCode info ≠ 0%Z →
  Contains (Explain info) (explainExitCode (ExitCode info)).
Proof.
  intros Hr Hcode. unfold Explain. rewrite Hr.
  change (selectNarrative "CrashLoopBackOff") with CrashLoop.
  cbv zeta. apply Contains_app_r.
  unfold renderNarrative, explainCrashLoopBackOff. cbv zeta.
  rewrite (bool_decide_true (ExitCode info ≠ 0%Z)) by done.
  case_bool_decide; find_substring.
Qed.

Lemma Explain_crash_loop_template (info : FailureInfo) :
  Reason info = "CrashLoopBackOff" →
  selectNarrative (Reason info) = CrashLoop
  ∧ Contains (Explain info) (explainCrashLoopBackOff info)
  ∧ Contains (Explain info) "Your container keeps crashing and restarting.".
Proof.
  intros Hr. split; [by apply selectNarrative_CrashLoop |].
  unfold Explain. rewrite Hr.
  change (selectNarrative "CrashLoopBackOff") with CrashLoop.
  cbv zeta. split; apply Contains_app_r; [apply Contains_refl |].
  unfold renderNarrative, explainCrashLoopBackOff. cbv zeta.
  repeat case_bool_decide; find_substring.
Qed.

Lemma gatherFailureInfo_ExitCode (d : PodDetector) (pod : Pod) (cs : ContainerStatus)
    (w : ContainerStateWaiting) (tr : list event) :
  ExitCode (gatherFailureInfo d pod cs w tr).1 = 0%Z
  ∧ Reason (gatherFailureInfo d pod cs w tr).1 = Waiting_Reason w.
Proof. unfold gatherFailureInfo. by destruct (getLastLog _ _ _ _ _). Qed.

Lemma Explain_waiting_crash_loop_no_exit_code (d : PodDetector) (pod : Pod)
    (cs : ContainerStatus) (w : ContainerStateWaiting) (tr : list event) :
  Waiting_Reason w = "CrashLoopBackOff" →
  ∃ log, Explain (gatherFailureInfo d pod cs w tr).1
         = Explain {| PodName := Pod_Name pod; Namespace := Pod_Namespace pod;
                      ContainerName := Status_Name cs; Reason := "CrashLoopBackOff";
                      Message := Waiting_Message w; ExitCode := 0; LastLog := log |}.
Proof.
  intros Hr. unfold gatherFailureInfo.
  destruct (getLastLog _ _ _ _ _) as [log tr']. exists log. cbn [fst]. by rewrite Hr.
Qed.


(** The record of the scenario taken by itself: the explanation of a
    failure record of container app in namespace prod with reason
    CrashLoopBackOff, exit code 137 and log tail fatal: OOM holds the
    crash-loop narrative, the annotation of exit code 137 and the log line.
    The detector builds that record from a terminated state with exit code
    137 and no reason; a record built from a waiting state always has exit
    code 0. *)
Theorem crash_loop_137_scenario :
  (∀ podName message : string,
     let info := scenario.crashLoopInfo podName message in
     Contains (Explain info) (explainCrashLoopBackOff info)
     ∧ Contains (Explain info) "Your container keeps crashing and restarting."
     ∧ Contains (Explain info)
         "→ Exit code 137: Killed by SIGKILL (usually OOM or forced termination)"
     ∧ Contains (Explain info) "fatal: OOM")
  ∧ (∀ d pod cs w tr, ExitCode (gatherFailureInfo d pod cs w tr).1 = 0%Z)
  ∧ (∀ d pod cs t tr,
       Pod_Namespace pod = "prod" → Status_Name cs = "app" →
       Terminated_ExitCode t = 137%Z → Terminated_Reason t = "" →
       GetLogs (clientset d) tr "prod" (Pod_Name pod)
         {| Container := "app"; TailLines := Some 10%Z |} = inr "fatal: OOM" →
       (gatherTerminationInfo d pod cs t tr).1
       = scenario.crashLoopInfo (Pod_Name pod) (Terminated_Message t)).
Proof.
  split; [| split].
  - intros podName message info.
    destruct (Explain_crash_loop_template info eq_refl) as (_ & Ht & Hs).
    repeat split; try done.
    + apply (Explain_crash_loop_exit_code info); done.
    + apply (Explain_crash_loop_log info); done.
  - intros. apply gatherFailureInfo_ExitCode.
  - intros d pod cs t tr Hns Hname Hcode Hreason Hlogs.
    unfold gatherTerminationInfo, getLastLog. cbv zeta.
    rewrite Hns, Hname, Hlogs, Hcode, Hreason. reflexivity.
Qed.

Lemma crash_loop_137_scenario_witness :
  (gatherTerminationInfo
     (New (scenario.cluster [] (inr "fatal: OOM")) scenario.noOptions)
     {| Pod_Namespace := "prod"; Pod_Name := "web";
        ContainerStatuses := [scenario.appKilled] |}
     scenario.appKilled
     {| Terminated_ExitCode := 137; Terminated_Reason := ""; Terminated_Message := "" |}
     []).1
  = scenario.crashLoopInfo "web" "".
Proof.
  destruct crash_loop_137_scenario as (_ & _ & H).
  apply (H (New (scenario.cluster [] (inr "fatal: OOM")) scenario.noOptions)
           {| Pod_Namespace := "prod"; Pod_Name := "web";
              ContainerStatuses := [scenario.appKilled] |}
           scenario.appKilled
           {| Terminated_ExitCode := 137; Terminated_Reason := "";
              Terminated_Message := "" |}
           []); reflexivity.
Defined.

(** The terminated counterpart of the scenario, run through [checkPod]. *)
Example terminated_137_prints_annotation :
  ∃ out : string,
    Stdout (out +:+ LF) ∈
      (checkPod {| Pod_Namespace := "prod"; Pod_Name := "web";
                   ContainerStatuses := [scenario.appKilled] |}
         (New (scenario.cluster [] (inr "fatal: OOM")) scenario.noOptions, [])).2
    ∧ containsb out "→ Exit code 137: Killed by SIGKILL (usually OOM or forced termination)"
      = true
    ∧ containsb out "fatal: OOM" = true.
Proof.
  eexists. split.
  - apply list_elem_of_further, list_elem_of_further, list_elem_of_here.
  - split; vm_compute; reflexivity.
Qed.

(** ** Terminated containers *)

Lemma checkContainer_terminated (d : PodDetector) (pod : Pod) (podKey : string)
    (cs : ContainerStatus) (t : ContainerStateTerminated) (tr : list event) :
  Waiting (State cs) = None → Terminated (State cs) = Some t →
  Terminated_ExitCode t ≠ 0%Z →
  checkContainer pod podKey cs (d, tr) =
    reportOnce (terminatedStatusKey podKey (Status_Name cs) (Terminated_ExitCode t))
               (λ d tr, gatherTerminationInfo d pod cs t tr) (d, tr).
Proof.
  intros Hw Ht Hcode. rewrite checkContainer_reportOnce, Hw, Ht. cbv zeta.
  by rewrite bool_decide_true.
Qed.

(** C5: a container that terminated with exit code 1 and an empty reason
    gets a failure record whose reason is the default CrashLoopBackOff; no
    error arises ([gatherTerminationInfo] returns a record); its explanation
    holds the annotation of exit code 1, an application error; and when its
    key is unseen, [checkPod] reports that record and prints the explanation. *)
Theorem exit_code_1_without_reason
    (d : PodDetector) (pod : Pod) (cs : ContainerStatus)
    (t : ContainerStateTerminated) (tr : list event) :
  inTerminatedState cs t →
  Terminated_ExitCode t = 1%Z →
  Terminated_Reason t = "" →
  let key := terminatedStatusKey (podKeyOf pod) (Status_Name cs) 1 in
  let info := (gatherTerminationInfo d pod cs t tr).1 in
  Reason info = "CrashLoopBackOff"
  ∧ ExitCode info = 1%Z
  ∧ Contains (Explain info) "→ Exit code 1: Application error - check your code for bugs"
  ∧ (seenAt d key = false →
     checkContainer pod (podKeyOf pod) cs (d, tr) =
       (markSeen d key,
        (gatherTerminationInfo d pod cs t tr).2 ++
          [ExplainCall key info; Stdout (Explain info +:+ LF); Stdout (separator +:+ LF)])).
Proof.
  intros (Hw & _ & Ht) Hcode Hreason key info.
  assert (Reason info = "CrashLoopBackOff") as Hr.
  { unfold info, gatherTerminationInfo. destruct (getLastLog _ _ _ _ _).
    cbn [fst Reason]. by rewrite Hreason. }
  assert (ExitCode info = 1%Z) as He.
  { unfold info, gatherTerminationInfo. by destruct (getLastLog _ _ _ _ _). }
  repeat split; try done.
  - change "→ Exit code 1: Application error - check your code for bugs"
      with (explainExitCode 1). rewrite <- He.
    apply Explain_crash_loop_exit_code; [done | by rewrite He].
  - intros Hunseen.
    rewrite (checkContainer_terminated d pod (podKeyOf pod) cs t tr Hw Ht)
      by (by rewrite Hcode).
    rewrite Hcode. by rewrite reportOnce_unseen.
Qed.

Lemma exit_code_1_without_reason_witness :
  Reason (gatherTerminationInfo
            (New (scenario.cluster [] (inl "unavailable")) scenario.noOptions)
            {| Pod_Namespace := "prod"; Pod_Name := "web";
               ContainerStatuses := [scenario.appExit1] |}
            scenario.appExit1
            {| Terminated_ExitCode := 1; Terminated_Reason := ""; Terminated_Message := "" |}
            []).1
  = "CrashLoopBackOff".
Proof.
  apply (exit_code_1_without_reason
           (New (scenario.cluster [] (inl "unavailable")) scenario.noOptions)
           {| Pod_Namespace := "prod"; Pod_Name := "web";
              ContainerStatuses := [scenario.appExit1] |}
           scenario.appExit1
           {| Terminated_ExitCode := 1; Terminated_Reason := ""; Terminated_Message := "" |}
           []);
    [repeat split | reflexivity | reflexivity].
Defined.

Lemma checkContainer_no_action
    (pod : Pod) (podKey : string) (cs : ContainerStatus) (s : PodDetector * list event) :
  Waiting (State cs) = None →
  Terminated (State cs) = None
  ∨ (∃ t, Terminated (State cs) = Some t ∧ Terminated_ExitCode t = 0%Z) →
  containerKeys podKey cs = [] ∧ checkContainer pod podKey cs s = s.
Proof.
  intros Hw [Ht | (t & Ht & Hcode)];
    unfold containerKeys, checkContainer; rewrite Hw, Ht; [done |].
  by rewrite !bool_decide_false by (intros Hne; by apply Hne).
Qed.

(** C6: for a container that is running, or that terminated with exit code
    0, one iteration of [checkPod] builds no status key and leaves the
    detector and the trace as they were: no log request, no failure record,
    no call of [Explain], nothing printed, the seen set unchanged. *)
Theorem no_action_when_running_or_exit_0
    (pod : Pod) (podKey : string) (cs : ContainerStatus) (s : PodDetector * list event) :
  inRunningState cs ∨ (∃ t, inTerminatedState cs t ∧ Terminated_ExitCode t = 0%Z) →
  containerKeys podKey cs = [] ∧ checkContainer pod podKey cs s = s.
Proof.
  intros [(Hw & _ & Ht) | (t & (Hw & _ & Ht) & Hcode)];
    apply checkContainer_no_action; eauto.
Qed.

Lemma no_action_when_running_or_exit_0_witness :
  checkContainer
    {| Pod_Namespace := "prod"; Pod_Name := "job"; ContainerStatuses := [scenario.appCompleted] |}
    "prod/job" scenario.appCompleted
    (New (scenario.cluster [] (inr "done")) scenario.noOptions, [])
  = (New (scenario.cluster [] (inr "done")) scenario.noOptions, []).
Proof.
  apply (no_action_when_running_or_exit_0 _ "prod/job" scenario.appCompleted).
  right. eexists. split; [repeat split | reflexivity].
Defined.

Lemma checkPod_no_action (pod : Pod) (s : PodDetector * list event) :
  (∀ cs, cs ∈ ContainerStatuses pod →
     inRunningState cs ∨ (∃ t, inTerminatedState cs t ∧ Terminated_ExitCode t = 0%Z)) →
  checkPod pod s = s.
Proof.
  unfold checkPod. generalize (podKeyOf pod). intros podKey.
  induction (ContainerStatuses pod) as [|cs l IH]; intros Hall; cbn [foldl]; [done |].
  destruct (checkContainer_no_action pod podKey cs s) as [_ ->].
  - destruct (Hall cs) as [(Hw & _) | (t & (Hw & _) & _)];
      [apply list_elem_of_here | done..].
  - destruct (Hall cs) as [(_ & _ & Ht) | (t & (_ & _ & Ht) & Hcode)];
      [apply list_elem_of_here | eauto..].
  - apply IH. intros cs' Hin. by apply Hall, list_elem_of_further.
Qed.

(** ** Where the failure records come from *)

Lemma reportOnce_new_infos (P : FailureInfo → Prop) (key : string) gather
    (s : PodDetector * list event) :
  LogOnly gather → P (gather s.1 s.2).1 →
  ∃ new, (reportOnce key gather s).2 = s.2 ++ new
         ∧ clientset (reportOnce key gather s).1 = clientset s.1
         ∧ Forall P (explainedInfos new).
Proof.
  intros Hg HP. destruct (seenAt s.1 key) eqn:Hs.
  - rewrite reportOnce_seen by done. exists []. by rewrite app_nil_r.
  - rewrite reportOnce_unseen by done. cbn [fst snd].
    destruct (Hg s.1 s.2) as (ns & p & c & r & Htr). rewrite Htr.
    eexists. split; [by rewrite <- app_assoc |].
    split; [done |]. cbn. by constructor.
Qed.

(** Every record that one iteration of [checkPod] gives to [Explain] was
    built by [gatherFailureInfo] from an accepted waiting reason, or by
    [gatherTerminationInfo] from a non-zero exit code. *)
Lemma checkContainer_new_infos (P : FailureInfo → Prop) (pod : Pod) (podKey : string)
    (cs : ContainerStatus) (s : PodDetector * list event) :
  (∀ w d tr, Waiting (State cs) = Some w → isFailureReason (Waiting_Reason w) = true →
             clientset d = clientset s.1 → P (gatherFailureInfo d pod cs w tr).1) →
  (∀ t d tr, Terminated (State cs) = Some t → Terminated_ExitCode t ≠ 0%Z →
             clientset d = clientset s.1 → P (gatherTerminationInfo d pod cs t tr).1) →
  ∃ new, (checkContainer pod podKey cs s).2 = s.2 ++ new
         ∧ clientset (checkContainer pod podKey cs s).1 = clientset s.1
         ∧ Forall P (explainedInfos new).
Proof.
  intros HW HT. rewrite checkContainer_reportOnce. cbv zeta.
  match goal with
  | |- ∃ _, (match _ with Some _ => _ | None => ?s1 end).2 = _ ∧ _ =>
      assert (∃ new, s1.2 = s.2 ++ new ∧ clientset s1.1 = clientset s.1
                     ∧ Forall P (explainedInfos new)) as (n1 & Ht1 & Hc1 & HP1);
      [| revert Ht1 Hc1; generalize s1; intros s' Ht1 Hc1]
  end.
  - destruct (Waiting (State cs)) as [w |] eqn:Hw;
      [destruct (isFailureReason (Waiting_Reason w)) eqn:Hf |];
      try (exists []; by rewrite app_nil_r).
    apply reportOnce_new_infos; [apply gatherFailureInfo_LogOnly | by apply HW].
  - assert (∃ new, (match Terminated (State cs) with
                    | Some t =>
                      if bool_decide (Terminated_ExitCode t ≠ 0%Z)
                      then reportOnce
                             (terminatedStatusKey podKey (Status_Name cs)
                                (Terminated_ExitCode t))
                             (λ d tr, gatherTerminationInfo d pod cs t tr) s'
                      else s'
                    | None => s'
                    end).2 = s'.2 ++ new
                   ∧ clientset (match Terminated (State cs) with
                    | Some t =>
                      if bool_decide (Terminated_ExitCode t ≠ 0%Z)
                      then reportOnce
                             (terminatedStatusKey podKey (Status_Name cs)
                                (Terminated_ExitCode t))
                             (λ d tr, gatherTerminationInfo d pod cs t tr) s'
                      else s'
                    | None => s'
                    end).1 = clientset s'.1
                   ∧ Forall P (explainedInfos new)) as (n2 & Ht2 & Hc2 & HP2).
    { destruct (Terminated (State cs)) as [t |] eqn:Ht;
        [case_bool_decide |]; try (exists []; by rewrite app_nil_r).
      apply reportOnce_new_infos; [apply gatherTerminationInfo_LogOnly |].
      apply HT; [done | done | congruence]. }
    exists (n1 ++ n2). rewrite Ht2, Ht1, Hc2, Hc1, explainedInfos_app, app_assoc.
    repeat split; try done. by apply Forall_app.
Qed.

Lemma checkPod_new_infos (P : FailureInfo → Prop) (pod : Pod)
    (s : PodDetector * list event) :
  (∀ cs w d tr, cs ∈ ContainerStatuses pod →
     Waiting (State cs) = Some w → isFailureReason (Waiting_Reason w) = true →
     clientset d = clientset s.1 → P (gatherFailureInfo d pod cs w tr).1) →
  (∀ cs t d tr, cs ∈ ContainerStatuses pod →
     Terminated (State cs) = Some t → Terminated_ExitCode t ≠ 0%Z →
     clientset d = clientset s.1 → P (gatherTerminationInfo d pod cs t tr).1) →
  ∃ new, (checkPod pod s).2 = s.2 ++ new
         ∧ clientset (checkPod pod s).1 = clientset s.1
         ∧ Forall P (explainedInfos new).
Proof.
  unfold checkPod. generalize (podKeyOf pod). intros podKey. revert s.
  induction (ContainerStatuses pod) as [|cs l IH]; intros s HW HT; cbn [foldl].
  { exists []. by rewrite app_nil_r. }
  destruct (checkContainer_new_infos P pod podKey cs s) as (n1 & Ht1 & Hc1 & HP1).
  { intros w d tr. apply HW, list_elem_of_here. }
  { intros t d tr. apply HT, list_elem_of_here. }
  destruct (IH (checkContainer pod podKey cs s)) as (n2 & Ht2 & Hc2 & HP2).
  { intros cs' w d tr Hin Hw Hf Hc. apply HW; [by apply list_elem_of_further | done..|congruence]. }
  { intros cs' t d tr Hin Ht Hf Hc. apply HT; [by apply list_elem_of_further | done..|congruence]. }
  exists (n1 ++ n2). rewrite Ht2, Ht1, Hc2, Hc1, explainedInfos_app, app_assoc.
  repeat split; try done. by apply Forall_app.
Qed.

Lemma gatherTerminationInfo_Reason (d : PodDetector) (pod : Pod) (cs : ContainerStatus)
    (t : ContainerStateTerminated) (tr : list event) :
  Reason (gatherTerminationInfo d pod cs t tr).1
  = if String.eqb (Terminated_Reason t) "" then "CrashLoopBackOff" else Terminated_Reason t.
Proof. unfold gatherTerminationInfo. by destruct (getLastLog _ _ _ _ _). Qed.



(** A container that was killed for memory, and one that waits with that
    reason: only the first is explained, with the out-of-memory narrative. *)
Example OOMKilled_terminated_and_waiting :
  map (λ info, selectNarrative (Reason info))
      (explainedInfos
         (checkPod {| Pod_Namespace := "prod"; Pod_Name := "web";
                      ContainerStatuses := [scenario.appOOMKilled] |}
            (New (scenario.cluster [] (inr "")) scenario.noOptions, [])).2)
  = [OOM]
  ∧ (checkPod {| Pod_Namespace := "prod"; Pod_Name := "web";
                 ContainerStatuses := [scenario.appWaitingOOM] |}
       (New (scenario.cluster [] (inr "")) scenario.noOptions, [])).2
    = [].
Proof. split; vm_compute; reflexivity. Qed.

(** ** Log fetches *)




Lemma sameReports_refl (s : PodDetector * list event) : sameReports s s.
Proof. by repeat split. Qed.








(** A pod with a crash-looping container whose logs cannot be fetched:
    the failure is reported with an empty log tail. *)
Example report_without_logs :
  explainedInfos
    (checkPod scenario.webPod
       (New (scenario.cluster [scenario.webPod] (inl "connection refused"))
            scenario.noOptions, [])).2
  = [{| PodName := "web"; Namespace := "prod"; ContainerName := "app";
        Reason := "CrashLoopBackOff";
        Message := "back-off restarting failed container";
        ExitCode := 0; LastLog := "" |}].
Proof. vm_compute. reflexivity. Qed.

(** ** Status keys *)

Lemma waitingStatusKey_inj_reason (podKey name r1 r2 : string) :
  waitingStatusKey podKey name r1 = waitingStatusKey podKey name r2 → r1 = r2.
Proof.
  unfold waitingStatusKey. intros H.
  by repeat (apply String.app_inj in H).
Qed.

Lemma terminatedStatusKey_inj_code (podKey name : string) (c1 c2 : Z) :
  terminatedStatusKey podKey name c1 = terminatedStatusKey podKey name c2 → c1 = c2.
Proof.
  unfold terminatedStatusKey. intros H.
  repeat (apply String.app_inj in H). by apply pretty_Z_inj.
Qed.

(** C2, evaluated on two pods of namespace prod: pod web-1 with container
    app, and pod web with container 1-app, both waiting in a crash loop.
    The two tuples differ but the status keys are the same string, for the
    waiting key and for the terminated key alike; of the two failures listed
    in one poll only the first is explained. *)
Theorem status_key_collision :
  ("prod", "web-1", "app", "CrashLoopBackOff") ≠ ("prod", "web", "1-app", "CrashLoopBackOff")
  ∧ waitingStatusKey (podKeyOf scenario.web1Pod) "app" "CrashLoopBackOff"
    = waitingStatusKey (podKeyOf scenario.webPod1App) "1-app" "CrashLoopBackOff"
  ∧ terminatedStatusKey (podKeyOf scenario.web1Pod) "app" 137
    = terminatedStatusKey (podKeyOf scenario.webPod1App) "1-app" 137
  ∧ map (λ info, (PodName info, ContainerName info))
        (explainedInfos
           (WatchPods 1
              (New (scenario.cluster [scenario.web1Pod; scenario.webPod1App] (inr ""))
                   scenario.noOptions)
              "prod").2.2)
    = [("web-1", "app")].
Proof.
  split; [discriminate |].
  repeat split; vm_compute; reflexivity.
Qed.

(** Two consecutive polls list the same container waiting with reason
    ImagePullBackOff: one explanation in all. *)
Example two_polls_one_explanation :
  explainedKeys (WatchPods 2 (New scenario.pullCluster scenario.noOptions) "prod").2.2
  = ["prod/web-app-ImagePullBackOff"].
Proof. vm_compute. reflexivity. Qed.

(** * Further properties *)

(** ** The narratives and the classifier *)

Lemma renderNarrative_ignores_ExitCode (n : narrative) (info : FailureInfo) (code : Z) :
  n ≠ CrashLoop →
  renderNarrative n
    {| PodName := PodName info; Namespace := Namespace info;
       ContainerName := ContainerName info; Reason := Reason info;
       Message := Message info; ExitCode := code; LastLog := LastLog info |}
  = renderNarrative n info.
Proof. intros Hn. destruct n; [done | reflexivity ..]. Qed.

(** X1: the exit code is shown by the crash-loop narrative only: under any
    reason other than CrashLoopBackOff the explanation is the same whatever
    the exit code of the record. *)
Theorem only_crash_loop_reads_exit_code (info : FailureInfo) (code : Z) :
  Reason info ≠ "CrashLoopBackOff" →
  Explain {| PodName := PodName info; Namespace := Namespace info;
             ContainerName := ContainerName info; Reason := Reason info;
             Message := Message info; ExitCode := code; LastLog := LastLog info |}
  = Explain info.
Proof.
  intros Hr. unfold Explain. cbn [PodName Namespace ContainerName Reason].
  cbv zeta. f_equal.
  apply renderNarrative_ignores_ExitCode.
  by rewrite selectNarrative_CrashLoop.
Qed.

Lemma only_crash_loop_reads_exit_code_witness :
  Explain {| PodName := "web"; Namespace := "prod"; ContainerName := "app";
             Reason := "Error"; Message := "exec format error";
             ExitCode := 1; LastLog := "fatal: OOM" |}
  = Explain scenario.errorInfo.
Proof. apply (only_crash_loop_reads_exit_code scenario.errorInfo 1). discriminate. Defined.

(** X2: the message of the record is shown by the generic narrative only:
    when the reason is one the switch of [Explain] names, the explanation is
    the same whatever the message. *)
Theorem named_reasons_never_show_message (info : FailureInfo) (message : string) :
  selectNarrative (Reason info) ≠ Generic →
  Explain {| PodName := PodName info; Namespace := Namespace info;
             ContainerName := ContainerName info; Reason := Reason info;
             Message := message; ExitCode := ExitCode info; LastLog := LastLog info |}
  = Explain info.
Proof.
  intros Hn. unfold Explain. cbn [PodName Namespace ContainerName Reason].
  cbv zeta. f_equal.
  destruct (selectNarrative (Reason info)); [reflexivity .. | done].
Qed.

Lemma named_reasons_never_show_message_witness :
  Explain {| PodName := "web"; Namespace := "prod"; ContainerName := "app";
             Reason := "ImagePullBackOff";
             Message := "Back-off pulling image";
             ExitCode := 0; LastLog := "fatal: OOM" |}
  = Explain scenario.imagePullInfo.
Proof.
  apply (named_reasons_never_show_message scenario.imagePullInfo "Back-off pulling image").
  discriminate.
Defined.

(** X3: the two image-pull reasons give the same explanation, byte for
    byte: a record with reason ErrImagePull is explained as the same record
    with reason ImagePullBackOff. *)
Theorem image_pull_variants_share_explanation (info : FailureInfo) :
  Reason info = "ErrImagePull" →
  Explain info
  = Explain {| PodName := PodName info; Namespace := Namespace info;
               ContainerName := ContainerName info; Reason := "ImagePullBackOff";
               Message := Message info; ExitCode := ExitCode info;
               LastLog := LastLog info |}.
Proof.
  intros Hr. unfold Explain. rewrite Hr. cbn [PodName Namespace ContainerName Reason].
  reflexivity.
Qed.

Lemma image_pull_variants_share_explanation_witness :
  Explain {| PodName := "web"; Namespace := "prod"; ContainerName := "app";
             Reason := "ErrImagePull"; Message := ""; ExitCode := 0;
             LastLog := "fatal: OOM" |}
  = Explain scenario.imagePullInfo.
Proof.
  apply (image_pull_variants_share_explanation
           {| PodName := "web"; Namespace := "prod"; ContainerName := "app";
              Reason := "ErrImagePull"; Message := ""; ExitCode := 0;
              LastLog := "fatal: OOM" |}).
  reflexivity.
Defined.


(** X5: a record whose reason the switch of [Explain] does not name (a
    container terminated with reason Error, say) gets the generic
    narrative: the explanation holds the reason as it is and, when the
    message is not empty, the message. *)
Theorem generic_narrative_shows_reason_and_message (info : FailureInfo) :
  selectNarrative (Reason info) = Generic →
  Explain info
  = "🚨 PROBLEM DETECTED" +:+ LF +:+ "=====================================" +:+ LF
    +:+ "Pod: " +:+ Namespace info +:+ "/" +:+ PodName info +:+ LF
    +:+ "Container: " +:+ ContainerName info +:+ LF +:+ LF
    +:+ explainGeneric info
  ∧ Contains (Explain info) ("❌ WHAT HAPPENED:" +:+ LF +:+ Reason info +:+ LF +:+ LF)
  ∧ (Message info ≠ "" →
     Contains (Explain info) ("📝 ERROR MESSAGE:" +:+ LF +:+ Message info +:+ LF +:+ LF)).
Proof.
  intros Hsel. unfold Explain. rewrite Hsel. cbv zeta. cbn [renderNarrative].
  split; [| split].
  - rewrite !append_assoc. reflexivity.
  - apply Contains_app_r. unfold explainGeneric. cbv zeta.
    case_bool_decide; find_substring.
  - intros Hm. apply Contains_app_r. unfold explainGeneric. cbv zeta.
    rewrite (bool_decide_true (Message info ≠ "")) by done. find_substring.
Qed.

Lemma generic_narrative_shows_reason_and_message_witness :
  Contains (Explain scenario.errorInfo) ("❌ WHAT HAPPENED:" +:+ LF +:+ "Error" +:+ LF +:+ LF).
Proof.
  apply (generic_narrative_shows_reason_and_message scenario.errorInfo). reflexivity.
Defined.

(** X6: a container that terminated with a non-zero exit code and no
    reason is explained with its exit code: the record has the default
    reason CrashLoopBackOff and the explanation holds the line with the
    code in decimal and the annotation of that code, whatever the code. *)
Theorem terminated_without_reason_shows_exit_code
    (d : PodDetector) (pod : Pod) (cs : ContainerStatus)
    (t : ContainerStateTerminated) (tr : list event) :
  Terminated_Reason t = "" →
  Terminated_ExitCode t ≠ 0%Z →
  let info := (gatherTerminationInfo d pod cs t tr).1 in
  Reason info = "CrashLoopBackOff"
  ∧ Contains (Explain info) ("Exit Code: " +:+ pretty (Terminated_ExitCode t) +:+ LF)
  ∧ Contains (Explain info) (explainExitCode (Terminated_ExitCode t) +:+ LF +:+ LF).
Proof.
  intros Hreason Hcode info.
  assert (Reason info = "CrashLoopBackOff") as Hr.
  { unfold info. rewrite gatherTerminationInfo_Reason. by rewrite Hreason. }
  assert (ExitCode info = Terminated_ExitCode t) as He.
  { unfold info, gatherTerminationInfo. by destruct (getLastLog _ _ _ _ _). }
  split; [done |]. rewrite <- He. generalize dependent info. intros info Hr He.
  unfold Explain. rewrite Hr.
  change (selectNarrative "CrashLoopBackOff") with CrashLoop.
  cbv zeta. cbn [renderNarrative]. unfold explainCrashLoopBackOff. cbv zeta.
  rewrite (bool_decide_true (ExitCode info ≠ 0%Z)) by (by rewrite He).
  split; apply Contains_app_r; case_bool_decide; find_substring.
Qed.

Lemma terminated_without_reason_shows_exit_code_witness :
  Contains
    (Explain (gatherTerminationInfo
                (New (scenario.cluster [] (inr "fatal: OOM")) scenario.noOptions)
                {| Pod_Namespace := "prod"; Pod_Name := "web";
                   ContainerStatuses := [scenario.appKilled] |}
                scenario.appKilled
                {| Terminated_ExitCode := 137; Terminated_Reason := "";
                   Terminated_Message := "" |}
                []).1)
    ("Exit Code: " +:+ pretty 137%Z +:+ LF).
Proof.
  apply (terminated_without_reason_shows_exit_code
           (New (scenario.cluster [] (inr "fatal: OOM")) scenario.noOptions)
           {| Pod_Namespace := "prod"; Pod_Name := "web";
              ContainerStatuses := [scenario.appKilled] |}
           scenario.appKilled
           {| Terminated_ExitCode := 137; Terminated_Reason := "";
              Terminated_Message := "" |}
           []); [reflexivity | discriminate].
Defined.

(** ** The reports of the detector, event by event *)

Lemma schedule_app (tr tr' : list event) :
  schedule (tr ++ tr') = schedule tr ++ schedule tr'.
Proof. apply omap_app. Qed.

Lemma listCalls_app (tr tr' : list event) :
  listCalls (tr ++ tr') = listCalls tr ++ listCalls tr'.
Proof. apply omap_app. Qed.

(** What the blocks of a list of reports show. *)
Lemma reportBlocks_views (reports : list report) :
  explainedKeys (flat_map reportBlock reports) = map (λ x, x.1.1) reports
  ∧ explainedInfos (flat_map reportBlock reports) = map (λ x, x.1.2) reports
  ∧ schedule (flat_map reportBlock reports) = []
  ∧ listCalls (flat_map reportBlock reports) = [].
Proof.
  induction reports as [|x l (IHk & IHi & IHs & IHl)]; [done |].
  cbn [flat_map].
  rewrite explainedKeys_app, explainedInfos_app, schedule_app, listCalls_app.
  rewrite IHk, IHi, IHs, IHl. done.
Qed.

Lemma gatherFailureInfo_GathersWith (Q : report → Prop) (key : string) (pod : Pod)
    (cs : ContainerStatus) (w : ContainerStateWaiting) :
  (∀ r, Q (key,
           {| PodName := Pod_Name pod; Namespace := Pod_Namespace pod;
              ContainerName := Status_Name cs; Reason := Waiting_Reason w;
              Message := Waiting_Message w; ExitCode := 0; LastLog := logTailOf r |},
           r)) →
  GathersWith Q key (λ d tr, gatherFailureInfo d pod cs w tr).
Proof.
  intros HQ d tr. unfold gatherFailureInfo, getLastLog. cbv zeta.
  exists (GetLogs (clientset d) tr (Pod_Namespace pod) (Pod_Name pod)
            {| Container := Status_Name cs; TailLines := Some 10%Z |}).
  specialize (HQ (GetLogs (clientset d) tr (Pod_Namespace pod) (Pod_Name pod)
                   {| Container := Status_Name cs; TailLines := Some 10%Z |})).
  by destruct (GetLogs _ _ _ _ _).
Qed.

Lemma gatherTerminationInfo_GathersWith (Q : report → Prop) (key : string) (pod : Pod)
    (cs : ContainerStatus) (t : ContainerStateTerminated) :
  (∀ r, Q (key,
           {| PodName := Pod_Name pod; Namespace := Pod_Namespace pod;
              ContainerName := Status_Name cs;
              Reason := if String.eqb (Terminated_Reason t) ""
                        then "CrashLoopBackOff" else Terminated_Reason t;
              Message := Terminated_Message t; ExitCode := Terminated_ExitCode t;
              LastLog := logTailOf r |},
           r)) →
  GathersWith Q key (λ d tr, gatherTerminationInfo d pod cs t tr).
Proof.
  intros HQ d tr. unfold gatherTerminationInfo, getLastLog. cbv zeta.
  exists (GetLogs (clientset d) tr (Pod_Namespace pod) (Pod_Name pod)
            {| Container := Status_Name cs; TailLines := Some 10%Z |}).
  specialize (HQ (GetLogs (clientset d) tr (Pod_Namespace pod) (Pod_Name pod)
                   {| Container := Status_Name cs; TailLines := Some 10%Z |})).
  by destruct (GetLogs _ _ _ _ _).
Qed.

Lemma reportOnce_blocks (Q : report → Prop) (key : string) gather
    (s : PodDetector * list event) :
  GathersWith Q key gather →
  ∃ reports, (reportOnce key gather s).2 = s.2 ++ flat_map reportBlock reports
             ∧ options (reportOnce key gather s).1 = options s.1
             ∧ Forall Q reports.
Proof.
  intros Hg. destruct (seenAt s.1 key) eqn:Hs.
  - rewrite reportOnce_seen by done. exists []. cbn. by rewrite app_nil_r.
  - rewrite reportOnce_unseen by done. cbn [fst snd].
    destruct (Hg s.1 s.2) as (r & Htr & HQ). rewrite Htr.
    exists [(key, (gather s.1 s.2).1, r)].
    split; [cbn; by rewrite <- app_assoc |].
    split; [done | by constructor].
Qed.

(** One iteration of [checkPod] extends the trace by the blocks of its
    reports, at most one for the waiting state and one for the terminated
    state, and leaves the options of the detector alone. *)
Lemma checkContainer_blocks (Q : report → Prop) (pod : Pod) (podKey : string)
    (cs : ContainerStatus) (s : PodDetector * list event) :
  (∀ w, Waiting (State cs) = Some w → isFailureReason (Waiting_Reason w) = true →
        GathersWith Q (waitingStatusKey podKey (Status_Name cs) (Waiting_Reason w))
          (λ d tr, gatherFailureInfo d pod cs w tr)) →
  (∀ t, Terminated (State cs) = Some t → Terminated_ExitCode t ≠ 0%Z →
        GathersWith Q (terminatedStatusKey podKey (Status_Name cs) (Terminated_ExitCode t))
          (λ d tr, gatherTerminationInfo d pod cs t tr)) →
  ∃ reports, (checkContainer pod podKey cs s).2 = s.2 ++ flat_map reportBlock reports
             ∧ options (checkContainer pod podKey cs s).1 = options s.1
             ∧ Forall Q reports.
Proof.
  intros HW HT. rewrite checkContainer_reportOnce. cbv zeta.
  match goal with
  | |- ∃ _, (match _ with Some _ => _ | None => ?s1 end).2 = _ ∧ _ =>
      assert (∃ reports, s1.2 = s.2 ++ flat_map reportBlock reports
                         ∧ options s1.1 = options s.1
                         ∧ Forall Q reports) as (l1 & Ht1 & Ho1 & HQ1);
      [| revert Ht1 Ho1; generalize s1; intros s' Ht1 Ho1]
  end.
  - destruct (Waiting (State cs)) as [w |] eqn:Hw;
      [destruct (isFailureReason (Waiting_Reason w)) eqn:Hf |];
      try (exists []; cbn; by rewrite app_nil_r).
    by apply reportOnce_blocks, HW.
  - destruct (Terminated (State cs)) as [t |] eqn:Ht; [case_bool_decide |].
    + destruct (reportOnce_blocks Q
                  (terminatedStatusKey podKey (Status_Name cs) (Terminated_ExitCode t))
                  (λ d tr, gatherTerminationInfo d pod cs t tr) s')
        as (l2 & Ht2 & Ho2 & HQ2); [by apply HT |].
      exists (l1 ++ l2). rewrite Ht2, Ht1, Ho2, Ho1, flat_map_app, app_assoc.
      repeat split; try done. by apply Forall_app.
    + exists l1. by rewrite Ht1, Ho1.
    + exists l1. by rewrite Ht1, Ho1.
Qed.

Lemma checkPod_blocks (Q : report → Prop) (pod : Pod) (s : PodDetector * list event) :
  (∀ cs w, cs ∈ ContainerStatuses pod →
     Waiting (State cs) = Some w → isFailureReason (Waiting_Reason w) = true →
     GathersWith Q (waitingStatusKey (podKeyOf pod) (Status_Name cs) (Waiting_Reason w))
       (λ d tr, gatherFailureInfo d pod cs w tr)) →
  (∀ cs t, cs ∈ ContainerStatuses pod →
     Terminated (State cs) = Some t → Terminated_ExitCode t ≠ 0%Z →
     GathersWith Q
       (terminatedStatusKey (podKeyOf pod) (Status_Name cs) (Terminated_ExitCode t))
       (λ d tr, gatherTerminationInfo d pod cs t tr)) →
  ∃ reports, (checkPod pod s).2 = s.2 ++ flat_map reportBlock reports
             ∧ options (checkPod pod s).1 = options s.1
             ∧ Forall Q reports.
Proof.
  unfold checkPod. revert s.
  induction (ContainerStatuses pod) as [|cs l IH]; intros s HW HT; cbn [foldl].
  { exists []. cbn. by rewrite app_nil_r. }
  destruct (checkContainer_blocks Q pod (podKeyOf pod) cs s) as (l1 & Ht1 & Ho1 & HQ1).
  { intros w. apply HW, list_elem_of_here. }
  { intros t. apply HT, list_elem_of_here. }
  destruct (IH (checkContainer pod (podKeyOf pod) cs s)) as (l2 & Ht2 & Ho2 & HQ2).
  { intros cs' w Hin. apply HW. by apply list_elem_of_further. }
  { intros cs' t Hin. apply HT. by apply list_elem_of_further. }
  exists (l1 ++ l2). rewrite Ht2, Ht1, Ho2, Ho1, flat_map_app, app_assoc.
  repeat split; try done. by apply Forall_app.
Qed.

Lemma containerKeys_podKeys (pod : Pod) (cs : ContainerStatus) (k : string) :
  cs ∈ ContainerStatuses pod → k ∈ containerKeys (podKeyOf pod) cs → k ∈ podKeys pod.
Proof.
  unfold podKeys. intros Hcs Hk.
  induction (ContainerStatuses pod) as [|c l IH]; [by apply elem_of_nil in Hcs |].
  cbn [map mjoin list_join]. apply elem_of_app.
  apply elem_of_cons in Hcs as [<- | Hcs]; [by left | right; by apply IH].
Qed.

(** X7: [checkPod] extends the trace by one block of four events for each
    failure it reports, and by nothing else: the request for the last 10 log
    lines of the container of the record, in the namespace and pod of the
    record; the call of [Explain]; the explanation printed with a line
    feed; the separator line.  The log tail of each record is the answer to
    its own request (empty when the request failed).  So logs are fetched
    only for the failures that are reported, once each. *)
Theorem checkPod_trace_is_report_blocks (pod : Pod) (s : PodDetector * list event) :
  ∃ reports : list report,
    (checkPod pod s).2 = s.2 ++ flat_map reportBlock reports
    ∧ Forall (λ x, LastLog x.1.2 = logTailOf x.2
                   ∧ PodName x.1.2 = Pod_Name pod
                   ∧ Namespace x.1.2 = Pod_Namespace pod) reports.
Proof.
  destruct (checkPod_blocks
              (λ x, LastLog x.1.2 = logTailOf x.2
                    ∧ PodName x.1.2 = Pod_Name pod
                    ∧ Namespace x.1.2 = Pod_Namespace pod) pod s)
    as (reports & Htr & _ & HQ).
  - intros cs w _ _ _. by apply gatherFailureInfo_GathersWith.
  - intros cs t _ _ _. by apply gatherTerminationInfo_GathersWith.
  - by exists reports.
Qed.

(** X8: [checkPod] explains exactly the failure conditions of the pod that
    were not seen before: a status key is explained by the call if and only
    if it is one of the keys of the pod and was unseen when the call began. *)
Theorem checkPod_explains_exactly_unseen_keys (pod : Pod) (s : PodDetector * list event) :
  ∃ new, (checkPod pod s).2 = s.2 ++ new
         ∧ ∀ k, k ∈ explainedKeys new ↔ k ∈ podKeys pod ∧ seenAt s.1 k = false.
Proof.
  destruct (checkPod_Steps pod s) as (new & Htr & _ & _ & Hun & Hseen & _).
  destruct (checkPod_blocks (λ x, x.1.1 ∈ podKeys pod) pod s)
    as (reports & Htr' & _ & HQ).
  { intros cs w Hin Hw Hf. apply gatherFailureInfo_GathersWith. intros r. cbn [fst].
    apply (containerKeys_podKeys pod cs); [done |].
    unfold containerKeys. rewrite Hw, Hf. apply elem_of_app. left. apply list_elem_of_here. }
  { intros cs t Hin Ht Hcode. apply gatherTerminationInfo_GathersWith. intros r. cbn [fst].
    apply (containerKeys_podKeys pod cs); [done |].
    unfold containerKeys. rewrite Ht, bool_decide_true by done.
    apply elem_of_app. right. apply list_elem_of_here. }
  assert (new = flat_map reportBlock reports) as Hnew.
  { rewrite Htr in Htr'. by apply app_inv_head in Htr'. }
  exists new. split; [done |]. intros k. split.
  - intros Hk. split; [| by apply Hun].
    rewrite Hnew in Hk. destruct (reportBlocks_views reports) as (Hkeys & _).
    rewrite Hkeys in Hk. apply list_elem_of_fmap in Hk as (x & -> & Hx).
    rewrite Forall_forall in HQ. by apply HQ.
  - intros [Hk Hs].
    pose proof (checkPod_keys_seen pod s k Hk) as Hafter.
    apply Hseen in Hafter as [Hbefore | Hin]; [congruence | done].
Qed.

(** X9: the records that [checkPod] gives to [Explain] are of two kinds: a
    record built from a waiting state has exit code 0 and a reason the
    classifier accepts; a record built from a terminated state has a
    non-zero exit code and a non-empty reason.  Each names the pod, its
    namespace and one of its containers. *)
Theorem explained_records_are_well_formed (pod : Pod) (s : PodDetector * list event) :
  ∃ new, (checkPod pod s).2 = s.2 ++ new
         ∧ Forall (λ info,
                     PodName info = Pod_Name pod
                     ∧ Namespace info = Pod_Namespace pod
                     ∧ (∃ cs, cs ∈ ContainerStatuses pod ∧ ContainerName info = Status_Name cs)
                     ∧ ((ExitCode info = 0%Z ∧ isFailureReason (Reason info) = true)
                        ∨ (ExitCode info ≠ 0%Z ∧ Reason info ≠ "")))
                  (explainedInfos new).
Proof.
  destruct (checkPod_new_infos
              (λ info,
                 PodName info = Pod_Name pod
                 ∧ Namespace info = Pod_Namespace pod
                 ∧ (∃ cs, cs ∈ ContainerStatuses pod ∧ ContainerName info = Status_Name cs)
                 ∧ ((ExitCode info = 0%Z ∧ isFailureReason (Reason info) = true)
                    ∨ (ExitCode info ≠ 0%Z ∧ Reason info ≠ "")))
              pod s) as (new & Htr & _ & HP).
  - intros cs w d tr Hin Hw Hf _. unfold gatherFailureInfo.
    destruct (getLastLog _ _ _ _ _). cbn. repeat split; eauto.
  - intros cs t d tr Hin Ht Hcode _. unfold gatherTerminationInfo.
    destruct (getLastLog _ _ _ _ _). cbn. repeat split; eauto.
    right. split; [done |].
    by destruct (String.eqb_spec (Terminated_Reason t) "").
  - by exists new.
Qed.

(** ** The polling loop *)

Lemma checkPod_quiet (pod : Pod) (s : PodDetector * list event) :
  schedule (checkPod pod s).2 = schedule s.2
  ∧ listCalls (checkPod pod s).2 = listCalls s.2
  ∧ options (checkPod pod s).1 = options s.1
  ∧ clientset (checkPod pod s).1 = clientset s.1.
Proof.
  destruct (checkPod_blocks (λ _, True) pod s) as (reports & Htr & Ho & _).
  - intros cs w _ _ _. by apply gatherFailureInfo_GathersWith.
  - intros cs t _ _ _. by apply gatherTerminationInfo_GathersWith.
  - destruct (reportBlocks_views reports) as (_ & _ & Hs & Hl).
    destruct (checkPod_Steps pod s) as (new & _ & Hc & _).
    rewrite Htr, schedule_app, listCalls_app, Hs, Hl, !app_nil_r. done.
Qed.

Lemma checkPods_quiet (pods : list Pod) (s : PodDetector * list event) :
  schedule (foldl (λ s pod, checkPod pod s) s pods).2 = schedule s.2
  ∧ listCalls (foldl (λ s pod, checkPod pod s) s pods).2 = listCalls s.2
  ∧ options (foldl (λ s pod, checkPod pod s) s pods).1 = options s.1
  ∧ clientset (foldl (λ s pod, checkPod pod s) s pods).1 = clientset s.1.
Proof.
  revert s. induction pods as [|pod l IH]; intros s; cbn [foldl]; [done |].
  destruct (IH (checkPod pod s)) as (-> & -> & -> & ->). apply checkPod_quiet.
Qed.

(** One cycle of the loop, unfolded: the debug line, the listing with the
    options of the detector, and either the return of the wrapped error or
    the checks, the sleep and the rest of the loop. *)
Lemma WatchPods_loop_S (n : nat) (namespace : string) (d : PodDetector) (tr : list event) :
  let dbg := Stdout ("[DEBUG] Querying namespace='" +:+ namespace +:+ "'" +:+ LF) in
  let o := listOptionsOf (options d) in
  let r := List (clientset d) (tr ++ [dbg]) namespace o in
  WatchPods_loop (S n) namespace (d, tr) =
    match r with
    | inl err =>
        (Some ("failed to list pods: " +:+ err), (d, tr ++ [dbg; PodsList namespace o r]))
    | inr pods =>
        let s := foldl (λ s pod, checkPod pod s) (d, tr ++ [dbg; PodsList namespace o r]) pods in
        WatchPods_loop n namespace (s.1, s.2 ++ [Sleep 10])
    end.
Proof.
  cbv zeta. cbn [WatchPods_loop]. cbv zeta.
  match goal with
  | |- context [List (clientset d) _ namespace ?o] =>
      replace o with (listOptionsOf (options d))
  end.
  - destruct (List _ _ _ _) as [err | pods]; by rewrite <- !app_assoc.
  - unfold listOptionsOf. repeat case_bool_decide; cbn; f_equal;
      try done; by apply dec_stable.
Qed.

(** X10: [WatchPods] returns only when a listing fails, and then at once:
    when it has returned [err], the last event of the trace is the failed
    listing and [err] is its error behind the words failed to list pods;
    no pod is checked and no sleep made after it.  While it has not
    returned, no listing has failed. *)
Theorem WatchPods_returns_on_list_error_only
    (cycles : nat) (d : PodDetector) (namespace : string) :
  match (WatchPods cycles d namespace).1 with
  | Some err =>
      ∃ tr o e, (WatchPods cycles d namespace).2.2 = tr ++ [PodsList namespace o (inl e)]
                ∧ err = "failed to list pods: " +:+ e
                ∧ Polled false ∉ schedule tr
  | None => Polled false ∉ schedule (WatchPods cycles d namespace).2.2
  end.
Proof.
  unfold WatchPods.
  match goal with |- context [WatchPods_loop cycles namespace (d, ?t)] =>
    assert (Polled false ∉ schedule t) as Hinit
      by (cbn; apply not_elem_of_nil); revert Hinit; generalize t
  end.
  revert d. induction cycles as [|n IH]; intros d tr Hinit; [done |].
  rewrite WatchPods_loop_S. cbv zeta.
  destruct (List _ _ _ _) as [err | pods] eqn:Hlist.
  - cbn [fst snd].
    exists (tr ++ [Stdout ("[DEBUG] Querying namespace='" +:+ namespace +:+ "'" +:+ LF)]),
      (listOptionsOf (options d)), err.
    split; [by rewrite <- app_assoc | split; [done |]].
    rewrite schedule_app. cbn. by rewrite app_nil_r.
  - match goal with |- context [WatchPods_loop n namespace (?d', ?t')] =>
      apply (IH d' t')
    end.
    destruct (checkPods_quiet pods
                (d, tr ++ [Stdout ("[DEBUG] Querying namespace='" +:+ namespace +:+ "'" +:+ LF);
                           PodsList namespace (listOptionsOf (options d)) (inr pods)]))
      as (Hs & _).
    rewrite schedule_app, Hs. cbn [snd]. rewrite schedule_app. cbn.
    rewrite !elem_of_app, !elem_of_cons, !elem_of_nil.
    intros [[Hin | [Hin | []]] | [Hin | []]]; [done | discriminate..].
Qed.

(** A cluster that cannot be reached: [WatchPods] returns on the first
    listing, with the wrapped error. *)
Example WatchPods_unreachable :
  WatchPods 5 (New scenario.unreachable scenario.noOptions) "prod"
  = (Some "failed to list pods: connection refused",
     (New scenario.unreachable scenario.noOptions,
      [Stdout ("🔍 Watching pods in namespace: prod" +:+ LF +:+ LF);
       Stdout ("[DEBUG] Querying namespace='prod'" +:+ LF);
       PodsList "prod" {| LabelSelector := ""; FieldSelector := "" |}
         (inl "connection refused")])).
Proof. vm_compute. reflexivity. Qed.

Lemma WatchPods_loop_schedule (n : nat) (namespace : string) (s : PodDetector * list event) :
  ∃ k, k ≤ n
       ∧ schedule (WatchPods_loop n namespace s).2.2
         = schedule s.2 ++ mjoin (replicate k [Polled true; Slept 10])
           ++ match (WatchPods_loop n namespace s).1 with
              | Some _ => [Polled false]
              | None => []
              end
       ∧ ((WatchPods_loop n namespace s).1 = None → k = n).
Proof.
  revert s. induction n as [|n IH]; intros [d tr].
  { exists 0. cbn. by rewrite app_nil_r. }
  rewrite WatchPods_loop_S. cbv zeta.
  destruct (List _ _ _ _) as [err | pods] eqn:Hlist.
  - exists 0. cbn [fst snd]. split; [lia |]. split; [| done].
    rewrite schedule_app. done.
  - match goal with |- context [WatchPods_loop n namespace ?s'] =>
      destruct (IH s') as (k & Hk & Hsched & Hnone)
    end.
    exists (S k). split; [lia |]. split; [| intros H; by rewrite Hnone].
    rewrite Hsched. cbn [snd].
    destruct (checkPods_quiet pods
                (d, tr ++ [Stdout ("[DEBUG] Querying namespace='" +:+ namespace +:+ "'" +:+ LF);
                           PodsList namespace (listOptionsOf (options d)) (inr pods)]))
      as (Hs & _).
    rewrite schedule_app, Hs. cbn [snd]. rewrite schedule_app. cbn.
    by rewrite <- !app_assoc.
Qed.

(** X11: the loop polls and sleeps in turn: the listings and sleeps of a
    run of [WatchPods] are a number of rounds of one successful listing and
    one sleep of 10 seconds, followed by one failed listing exactly when the
    loop has returned; when it has not returned after the given number of
    cycles, that many rounds were made. *)
Theorem WatchPods_schedule (cycles : nat) (d : PodDetector) (namespace : string) :
  ∃ rounds, rounds ≤ cycles
    ∧ schedule (WatchPods cycles d namespace).2.2
      = mjoin (replicate rounds [Polled true; Slept 10])
        ++ match (WatchPods cycles d namespace).1 with
           | Some _ => [Polled false]
           | None => []
           end
    ∧ ((WatchPods cycles d namespace).1 = None → rounds = cycles).
Proof.
  unfold WatchPods.
  match goal with |- context [WatchPods_loop cycles namespace ?s0] =>
    destruct (WatchPods_loop_schedule cycles namespace s0) as (k & Hk & Hs & Hn)
  end.
  exists k. by rewrite Hs.
Qed.

Lemma WatchPods_loop_listCalls (n : nat) (namespace : string) (s : PodDetector * list event) :
  ∃ k, listCalls (WatchPods_loop n namespace s).2.2
       = listCalls s.2 ++ replicate k (namespace, listOptionsOf (options s.1))
     ∧ options (WatchPods_loop n namespace s).2.1 = options s.1
     ∧ clientset (WatchPods_loop n namespace s).2.1 = clientset s.1.
Proof.
  revert s. induction n as [|n IH]; intros [d tr].
  { exists 0. cbn. by rewrite app_nil_r. }
  rewrite WatchPods_loop_S. cbv zeta.
  destruct (List _ _ _ _) as [err | pods] eqn:Hlist.
  - exists 1. cbn [fst snd]. rewrite listCalls_app. done.
  - match goal with |- context [WatchPods_loop n namespace ?s'] =>
      destruct (IH s') as (k & Hcalls & Ho & Hc)
    end.
    destruct (checkPods_quiet pods
                (d, tr ++ [Stdout ("[DEBUG] Querying namespace='" +:+ namespace +:+ "'" +:+ LF);
                           PodsList namespace (listOptionsOf (options d)) (inr pods)]))
      as (_ & Hl & Ho' & Hc').
    exists (S k). rewrite Hcalls, Ho, Hc. cbn [fst snd].
    rewrite Ho', Hc', listCalls_app, Hl. cbn [fst snd]. rewrite listCalls_app. cbn.
    by rewrite <- !app_assoc.
Qed.

(** X12: every listing of a run of [WatchPods] is made in the given
    namespace with the same options: the label selector of the detector as
    it is, and the field selector metadata.name= followed by the pod name
    when a pod name is set, empty otherwise.  The run leaves the options
    and the client of the detector as they were. *)
Theorem WatchPods_list_options (cycles : nat) (d : PodDetector) (namespace : string) :
  Forall (λ call, call = (namespace, listOptionsOf (options d)))
         (listCalls (WatchPods cycles d namespace).2.2)
  ∧ options (WatchPods cycles d namespace).2.1 = options d
  ∧ clientset (WatchPods cycles d namespace).2.1 = clientset d.
Proof.
  unfold WatchPods.
  match goal with |- context [WatchPods_loop cycles namespace ?s0] =>
    destruct (WatchPods_loop_listCalls cycles namespace s0) as (k & Hcalls & Ho & Hc)
  end.
  rewrite Hcalls, Ho, Hc. cbn. repeat split; try done.
  apply Forall_forall. by intros x [-> _]%elem_of_replicate.
Qed.

(** A detector set on one pod name and one label. *)
Example WatchPods_selectors :
  listCalls
    (WatchPods 1
       (New scenario.pullCluster {| Opt_PodName := "web"; Opt_LabelSelector := "app=web" |})
       "prod").2.2
  = [("prod", {| LabelSelector := "app=web"; FieldSelector := "metadata.name=web" |})].
Proof. vm_compute. reflexivity. Qed.

(** X13: the seen set is the set of explained keys and only grows: after
    any run of [WatchPods] from a fresh detector a key reads as seen exactly
    when [Explain] was called under it, and a key seen in any state is
    still seen after any number of further cycles. *)
Theorem seen_set_is_explained_keys
    (c : Clientset) (opts : Options) (namespace : string) (cycles : nat) :
  (∀ k, seenAt (WatchPods cycles (New c opts) namespace).2.1 k = true
        ↔ k ∈ explainedKeys (WatchPods cycles (New c opts) namespace).2.2)
  ∧ (∀ (s0 : PodDetector * list event) more k,
       seenAt s0.1 k = true → seenAt (WatchPods_loop more namespace s0).2.1 k = true).
Proof.
  split.
  - intros k. unfold WatchPods.
    match goal with |- context [WatchPods_loop cycles namespace ?s0] =>
      destruct (WatchPods_loop_Steps cycles namespace s0) as (new & Htr & _ & _ & _ & Hs & _)
    end.
    rewrite Hs, Htr, explainedKeys_app. cbn [fst snd].
    rewrite seenAt_New. cbn. split; [by intros [? | ?] | by right].
  - intros s0 more k. apply Steps_seen_mono, WatchPods_loop_Steps.
Qed.

(** ** Status keys of one container *)

(** X14: for one pod and one container the status keys tell the failure
    conditions apart: two waiting reasons with the same key are the same
    reason, two exit codes with the same key are the same code, and the key
    of an accepted waiting reason is never the key of an exit code. *)
Theorem status_keys_distinct_per_container (podKey name : string) :
  (∀ r1 r2, waitingStatusKey podKey name r1 = waitingStatusKey podKey name r2 → r1 = r2)
  ∧ (∀ c1 c2, terminatedStatusKey podKey name c1 = terminatedStatusKey podKey name c2 →
              c1 = c2)
  ∧ (∀ r c, isFailureReason r = true →
            waitingStatusKey podKey name r ≠ terminatedStatusKey podKey name c).
Proof.
  split; [apply waitingStatusKey_inj_reason | split; [apply terminatedStatusKey_inj_code |]].
  intros r c Hr Heq. unfold waitingStatusKey, terminatedStatusKey in Heq.
  do 3 apply String.app_inj in Heq.
  change ("-terminated-" +:+ pretty c) with ("-" +:+ "terminated-" +:+ pretty c) in Heq.
  apply String.app_inj in Heq. subst r.
  unfold isFailureReason, failureReasons in Hr.
  repeat match type of Hr with
         | context [String.eqb ?a ?b] =>
             destruct (String.eqb_spec a b) as [Habs | _];
             [rewrite append_cons in Habs; discriminate |]
         end.
  discriminate.
Qed.

Lemma WatchPods_loop_never_returns (n : nat) (namespace : string)
    (s : PodDetector * list event) :
  (∀ tr o, ∃ pods, List (clientset s.1) tr namespace o = inr pods) →
  (WatchPods_loop n namespace s).1 = None.
Proof.
  revert s. induction n as [|n IH]; intros [d tr] Hok; [done |].
  rewrite WatchPods_loop_S. cbv zeta. cbn [fst] in Hok.
  destruct (Hok (tr ++ [Stdout ("[DEBUG] Querying namespace='" +:+ namespace +:+ "'" +:+ LF)])
              (listOptionsOf (options d))) as [pods ->].
  apply IH. cbn [fst].
  destruct (checkPods_quiet pods
              (d, tr ++ [Stdout ("[DEBUG] Querying namespace='" +:+ namespace +:+ "'" +:+ LF);
                         PodsList namespace (listOptionsOf (options d)) (inr pods)]))
    as (_ & _ & _ & ->).
  exact Hok.
Qed.

(** X15: [WatchPods] has no other exit: against a cluster whose listings
    in the namespace all succeed it has not returned after any number of
    cycles, whatever the pods are and whether their logs can be fetched. *)
Theorem WatchPods_never_returns_while_listings_succeed
    (d : PodDetector) (namespace : string) :
  (∀ tr o, ∃ pods, List (clientset d) tr namespace o = inr pods) →
  ∀ cycles, (WatchPods cycles d namespace).1 = None.
Proof.
  intros Hok cycles. unfold WatchPods. by apply WatchPods_loop_never_returns.
Qed.

Lemma WatchPods_never_returns_while_listings_succeed_witness :
  (WatchPods 3 (New scenario.pullCluster scenario.noOptions) "prod").1 = None.
Proof.
  apply (WatchPods_never_returns_while_listings_succeed
           (New scenario.pullCluster scenario.noOptions) "prod").
  intros tr o. by exists [scenario.pullPod].
Defined.

(** ** Reports when the logs cannot be fetched *)





(** A container that exited with code 1 and no reason, with logs that
    cannot be fetched: the failure is reported in full, with an empty log
    tail. *)
Example report_terminated_without_logs :
  (checkPod {| Pod_Namespace := "prod"; Pod_Name := "web";
               ContainerStatuses := [scenario.appExit1] |}
     (New (scenario.cluster [] (inl "connection refused")) scenario.noOptions, [])).2
  = reportBlock
      ("prod/web-app-terminated-1",
       {| PodName := "web"; Namespace := "prod"; ContainerName := "app";
          Reason := "CrashLoopBackOff"; Message := ""; ExitCode := 1; LastLog := "" |},
       inl "connection refused").
Proof. vm_compute. reflexivity. Qed.
